(** * simple-ipc-lib: the channel of [src/ipc_channel.h]

    A shallow embedding of [ipc::Channel<TransportT, EncoderT, DecoderT>]:
    its nested [RxHandler], [AddMsgElement], [Send] and [Receive].  The
    three template parameters and the dispatch object are interfaces (type
    classes below); calls the channel makes on them are recorded in call
    traces so that call order and "never invoked" can be stated. *)

From Stdlib Require Import ZArith List Lia Bool.
Import ListNotations.
Open Scope Z_scope.

Set Implicit Arguments.

(* ================================================================== *)
(** ** Machine integers *)

(** Width of [size_t].  The C standard only promises 16 bits; the code
    base targets 32 and 64 bit Windows. *)
Class SizeT := {
  size_bits : Z;
  size_bits_ge : 16 <= size_bits
}.

(** Conversion of an integer to [size_t] (what [return -1;] does in a
    function whose result type is [size_t]). *)
Definition to_size_t {size_t : SizeT} (z : Z) : Z := z mod 2 ^ size_bits.

(** [int], [unsigned int], [char] (signed, as with MSVC) and [wchar_t]
    (16 bit, as on Windows) read out of a machine word. *)
Definition to_int (z : Z) : Z := (z + 2 ^ 31) mod 2 ^ 32 - 2 ^ 31.
Definition to_uint (z : Z) : Z := z mod 2 ^ 32.
Definition to_char (z : Z) : Z := (z + 2 ^ 7) mod 2 ^ 8 - 2 ^ 7.
Definition to_wchar (z : Z) : Z := z mod 2 ^ 16.

(** [std::string] and [std::wstring]: sequences of 8 and 16 bit units. *)
Definition string8 := list Z.
Definition string16 := list Z.

(** What a constructor taking [const char*] / [const wchar_t*] sees of
    [str.c_str()]: the units before the first terminator. *)
Fixpoint c_str (s : list Z) : list Z :=
  match s with
  | [] => []
  | c :: r => if c =? 0 then [] else c :: c_str r
  end.

(* ================================================================== *)
(** ** [ipc_wire_types.h] (included by the channel, not part of the tree) *)

(** Modelled from the spec: the enumerators [ipc::TYPE_*] of
    [ipc_wire_types.h], which is missing.  Their numeric values are not
    known, so they are parameters; they are pairwise different because all
    twelve are case labels of the one [switch] in [AddMsgElement], and they
    are values of type [int]. *)
Class WireTypeIds := {
  TYPE_NONE : Z;
  TYPE_INT32 : Z;
  TYPE_UINT32 : Z;
  TYPE_CHAR8 : Z;
  TYPE_CHAR16 : Z;
  TYPE_NULLSTRING8 : Z;
  TYPE_NULLSTRING16 : Z;
  TYPE_STRING8 : Z;
  TYPE_STRING16 : Z;
  TYPE_BARRAY : Z;
  TYPE_UNIX_FD : Z;
  TYPE_WIN_HANDLE : Z;
  type_ids :=
    [TYPE_NONE; TYPE_INT32; TYPE_UINT32; TYPE_CHAR8; TYPE_CHAR16;
     TYPE_NULLSTRING8; TYPE_NULLSTRING16; TYPE_STRING8; TYPE_STRING16;
     TYPE_BARRAY; TYPE_UNIX_FD; TYPE_WIN_HANDLE];
  type_ids_distinct : NoDup type_ids;
  type_ids_int : Forall (fun t => - 2 ^ 31 <= t < 2 ^ 31) type_ids
}.

(** Modelled from the spec: the class [ipc::WireType] of the missing
    [ipc_wire_types.h] ("a closed, tagged variant", spec section 3), one
    constructor per tag. *)
Inductive WireType : Type :=
| WNone
| WInt32 (v : Z)
| WUInt32 (v : Z)
| WChar8 (c : Z)
| WChar16 (c : Z)
| WNullString8
| WNullString16
| WString8 (s : string8)
| WString16 (s : string16)
| WByteArray (b : string8)
| WUnixFd (fd : Z)
| WWinHandle (h : Z).

Section WireTypeOps.
Context {tags : WireTypeIds}.

(** Modelled from the spec: [WireType::Id()], "the active variant"
    (spec 4.1). *)
Definition Id (w : WireType) : Z :=
  match w with
  | WNone => TYPE_NONE
  | WInt32 _ => TYPE_INT32
  | WUInt32 _ => TYPE_UINT32
  | WChar8 _ => TYPE_CHAR8
  | WChar16 _ => TYPE_CHAR16
  | WNullString8 => TYPE_NULLSTRING8
  | WNullString16 => TYPE_NULLSTRING16
  | WString8 _ => TYPE_STRING8
  | WString16 _ => TYPE_STRING16
  | WByteArray _ => TYPE_BARRAY
  | WUnixFd _ => TYPE_UNIX_FD
  | WWinHandle _ => TYPE_WIN_HANDLE
  end.
End WireTypeOps.

(** Modelled from the spec: the accessors of [WireType] that
    [AddMsgElement] calls (spec 4.1: "a raw-bits accessor valid only for
    fixed-width scalar tags, and format-converting accessors"); none of
    them is in the tree.  [GetAsBits] yields a pointer: the model has the
    little-endian word it designates.  An accessor used on another variant
    is a contract violation; the model answers zero or the empty string. *)
Definition GetAsBits (w : WireType) : Z :=
  match w with
  | WInt32 v => to_uint v
  | WUInt32 v => to_uint v
  | WChar8 c => c mod 2 ^ 8
  | WChar16 c => c mod 2 ^ 16
  | _ => 0
  end.

Definition GetString8 (w : WireType) : string8 :=
  match w with
  | WString8 s => s
  | WByteArray b => b
  | _ => []
  end.

Definition GetString16 (w : WireType) : string16 :=
  match w with
  | WString16 s => s
  | _ => []
  end.

Definition GetUnixFD (w : WireType) : Z :=
  match w with WUnixFd fd => fd | _ => 0 end.

Definition GetWinHandle (w : WireType) : Z :=
  match w with WWinHandle h => h | _ => 0 end.

(** Modelled from the spec: the constructors of [WireType] the accumulator
    calls, one per source type (spec 4.1).  Those from [const char *] and
    [const wchar_t *] take a possibly null pointer: null gives the
    null-string variant, anything else a C string. *)
Definition WireType_of_int (v : Z) : WireType := WInt32 v.
Definition WireType_of_uint (v : Z) : WireType := WUInt32 v.
Definition WireType_of_char (c : Z) : WireType := WChar8 c.
Definition WireType_of_wchar (c : Z) : WireType := WChar16 c.
Definition WireType_of_pchar (p : option string8) : WireType :=
  match p with None => WNullString8 | Some s => WString8 (c_str s) end.
Definition WireType_of_pwchar (p : option string16) : WireType :=
  match p with None => WNullString16 | Some s => WString16 (c_str s) end.
Definition WireType_of_ByteArray (b : string8) : WireType := WByteArray b.

(** [Channel::kMaxNumArgs] *)
Definition kMaxNumArgs : Z := 8.

(* ================================================================== *)
(** ** [Channel::RxHandler] *)

Module RxHandler.

Record t : Type := mk {
  list_ : list WireType;
  msg_id_ : Z
}.

(** [RxHandler() : msg_id_(-1) {}] *)
Definition init : t := mk [] (-1).

Definition push_back (h : t) (w : WireType) : t :=
  mk (list_ h ++ [w]) (msg_id_ h).

(** [list_.reserve(n_args)] changes capacity only. *)
Definition OnMessageStart (h : t) (id n_args : Z) : t * bool :=
  (mk (list_ h) id, true).

Section Callbacks.
Context {tags : WireTypeIds}.

Definition OnWord (h : t) (bits type_id : Z) : t * bool :=
  if type_id =? TYPE_INT32 then
    (push_back h (WireType_of_int (to_int bits)), true)
  else if type_id =? TYPE_UINT32 then
    (push_back h (WireType_of_uint (to_uint bits)), true)
  else if type_id =? TYPE_CHAR8 then
    (push_back h (WireType_of_char (to_char bits)), true)
  else if type_id =? TYPE_CHAR16 then
    (push_back h (WireType_of_wchar (to_wchar bits)), true)
  else if type_id =? TYPE_NULLSTRING8 then
    (push_back h (WireType_of_pchar None), true)
  else if type_id =? TYPE_NULLSTRING16 then
    (push_back h (WireType_of_pwchar None), true)
  else (h, false).

Definition OnString8 (h : t) (str : string8) (type_id : Z) : t * bool :=
  if type_id =? TYPE_STRING8 then
    (push_back h (WireType_of_pchar (Some str)), true)
  else if type_id =? TYPE_BARRAY then
    (push_back h (WireType_of_ByteArray str), true)
  else (h, false).

Definition OnString16 (h : t) (str : string16) (type_id : Z) : t * bool :=
  if type_id =? TYPE_STRING16 then
    (push_back h (WireType_of_pwchar (Some str)), true)
  else (h, false).
End Callbacks.

Definition MsgId (h : t) : Z := msg_id_ h.

(** [return list_[ix];] -- [std::vector::operator[]] does not check the
  index: [None] stands for the out-of-bounds access, whose behaviour
  C++ leaves undefined. *)
Definition GetArg (h : t) (ix : nat) : option WireType :=
  nth_error (list_ h) ix.

Definition GetArgCount (h : t) : nat := length (list_ h).

End RxHandler.

(* ================================================================== *)
(** ** The collaborators of the channel *)

(** A buffer handed between encoder, transport and decoder is a pointer
    and a size: [None] is the null pointer, [Some bytes] a buffer of
    [length bytes] bytes. *)
Definition buffer := option (list Z).

(** The "Sending Requirements" of the header comment: what [EncoderT]
    implements.  An encoder is an object with state; every method returns
    the state it leaves behind. *)
Class EncoderT (E : Type) := {
  Encoder_new : E;
  Open : E -> Z -> E * bool;
  Close : E -> E * bool;
  SetMsgId : E -> Z -> E;
  OnWord : E -> Z -> Z -> E * bool;
  OnString8 : E -> string8 -> Z -> E * bool;
  OnString16 : E -> string16 -> Z -> E * bool;
  OnUnixFd : E -> Z -> Z -> E * bool;
  OnWinHandle : E -> Z -> Z -> E * bool;
  GetBuffer : E -> buffer
}.

(** [TransportT]: [Send(buf, size)] and [Receive(&received)]. *)
Class TransportT (T : Type) := {
  Transport_Send : T -> list Z -> T * Z;
  Transport_Receive : T -> T * buffer
}.

(** The calls [Send] makes on its encoder and its transport. *)
Inductive TxCall : Type :=
| EOpen (n_args : Z)
| EOnWord (bits tag : Z)
| EOnString8 (s : string8) (tag : Z)
| EOnString16 (s : string16) (tag : Z)
| EOnUnixFd (fd tag : Z)
| EOnWinHandle (h tag : Z)
| ESetMsgId (msg_id : Z)
| EClose
| EGetBuffer
| ETransportSend (buf : list Z).

(** The calls a decoder makes on the [RxHandler] it was constructed with
    ("Decoder<Handler> should call"). *)
Inductive HandlerCall : Type :=
| HOnMessageStart (id n_args : Z)
| HOnWord (bits type_id : Z)
| HOnString8 (str : string8) (type_id : Z)
| HOnString16 (str : string16) (type_id : Z).

(** What one [OnData] does with the handler: a finite sequence of callbacks,
    each continued with the [bool] the handler answered, ending in a
    value. *)
Inductive Callbacks (A : Type) : Type :=
| Return (a : A)
| Call (c : HandlerCall) (k : bool -> Callbacks A).

Arguments Return {A} a.
Arguments Call {A} c k.

(** "Receiving Requirements": [DecoderT<RxHandler>].  [OnData] answers
    whether it wants more data. *)
Class DecoderT (D : Type) := {
  Decoder_new : D;
  OnData : D -> buffer -> Callbacks (D * bool);
  Success : D -> bool
}.

(** [DispatchT]: [MsgHandler(id)] resolves a handler or null, [OnMsgIn]
    receives the message; it is handed the channel, so it may use the
    transport. *)
Class DispatchT (T P : Type) := {
  MsgHandler : P -> Z -> option P;
  OnMsgIn : P -> Z -> T -> list WireType -> Z -> T * Z
}.

(** The calls [Receive] makes on the dispatch objects. *)
Inductive DispatchCall : Type :=
| DMsgHandler (id : Z)
| DOnMsgIn (id : Z) (args : list WireType) (np : Z).

(** How a call of the model ends: it returns, or the loop of [Receive]
    is still running when the fuel is spent, or a vector is indexed out
    of bounds. *)
Inductive Outcome (A : Type) : Type :=
| Returns (a : A)
| OutOfFuel
| OutOfBounds.

Arguments Returns {A} a.
Arguments OutOfFuel {A}.
Arguments OutOfBounds {A}.

Section HandlerCalls.
Context {tags : WireTypeIds}.

Definition apply_call (h : RxHandler.t) (c : HandlerCall) : RxHandler.t * bool :=
  match c with
  | HOnMessageStart id n_args => RxHandler.OnMessageStart h id n_args
  | HOnWord bits type_id => RxHandler.OnWord h bits type_id
  | HOnString8 str type_id => RxHandler.OnString8 h str type_id
  | HOnString16 str type_id => RxHandler.OnString16 h str type_id
  end.

Fixpoint run_callbacks {A : Type} (p : Callbacks A) (h : RxHandler.t)
  : A * RxHandler.t * list HandlerCall :=
  match p with
  | Return a => (a, h, [])
  | Call c k =>
      let '(h1, ok) := apply_call h c in
      let '(a, h2, calls) := run_callbacks (k ok) h1 in
      (a, h2, c :: calls)
  end.

End HandlerCalls.

(* ================================================================== *)
(** ** [Channel] *)

Section Channel.
Context {size_t : SizeT} {tags : WireTypeIds}.
Context {T E D : Type}.
Context {transport : TransportT T} {enc : EncoderT E} {dec : DecoderT D}.

(** [AddMsgElement]: the [switch] on [wtype.Id()].  Besides the encoder
    and the result it yields the encoder call it made, if any. *)
Definition AddMsgElement (encoder : E) (wtype : WireType)
  : E * bool * list TxCall :=
  let id := Id wtype in
  if id =? TYPE_NONE then (encoder, false, [])
  else if (id =? TYPE_INT32) || (id =? TYPE_UINT32)
          || (id =? TYPE_CHAR8) || (id =? TYPE_CHAR16) then
    (OnWord encoder (GetAsBits wtype) id, [EOnWord (GetAsBits wtype) id])
  else if (id =? TYPE_STRING8) || (id =? TYPE_BARRAY) then
    let ctemp := GetString8 wtype in
    (OnString8 encoder ctemp id, [EOnString8 ctemp id])
  else if id =? TYPE_STRING16 then
    let wtemp := GetString16 wtype in
    (OnString16 encoder wtemp id, [EOnString16 wtemp id])
  else if (id =? TYPE_NULLSTRING8) || (id =? TYPE_NULLSTRING16) then
    (OnWord encoder (GetAsBits wtype) id, [EOnWord (GetAsBits wtype) id])
  else if id =? TYPE_UNIX_FD then
    (OnUnixFd encoder (GetUnixFD wtype) id, [EOnUnixFd (GetUnixFD wtype) id])
  else if id =? TYPE_WIN_HANDLE then
    (OnWinHandle encoder (GetWinHandle wtype) id,
     [EOnWinHandle (GetWinHandle wtype) id])
  else (encoder, false, []).

(** The [for] loop of [Send]: the result of [AddMsgElement] is not looked
    at. *)
Fixpoint Send_args (encoder : E) (args : list WireType) : E * list TxCall :=
  match args with
  | [] => (encoder, [])
  | wtype :: rest =>
      let '(encoder, _, c) := AddMsgElement encoder wtype in
      let '(encoder, cs) := Send_args encoder rest in
      (encoder, c ++ cs)
  end.

(** [Send(msg_id, args, n_args)], with [n_args] the length of [args].  The
    result of [Open] is not looked at either. *)
Definition Send (transport_ : T) (msg_id : Z) (args : list WireType)
  : T * Z * list TxCall :=
  let n_args := Z.of_nat (length args) in
  let encoder := Encoder_new in
  let '(encoder, _) := Open encoder n_args in
  let '(encoder, cs) := Send_args encoder args in
  let encoder := SetMsgId encoder msg_id in
  let '(encoder, closed) := Close encoder in
  let calls := EOpen n_args :: cs ++ [ESetMsgId msg_id; EClose] in
  if negb closed then (transport_, to_size_t (-1), calls)
  else
    match GetBuffer encoder with
    | None => (transport_, to_size_t (-2), calls ++ [EGetBuffer])
    | Some buf =>
        let '(transport_, sent) := Transport_Send transport_ buf in
        (transport_, to_size_t sent, calls ++ [EGetBuffer; ETransportSend buf])
    end.

(** The [do ... while (decoder.OnData(buf, received))] loop of [Receive];
    it also yields the callbacks the decoder made. *)
Fixpoint Receive_loop (fuel : nat) (transport_ : T) (decoder : D)
  (handler : RxHandler.t)
  : option (T * D * RxHandler.t * list HandlerCall) :=
  match fuel with
  | O => None
  | S fuel' =>
      let '(transport_, buf) := Transport_Receive transport_ in
      let '(decoder, more, handler, calls) :=
        run_callbacks (OnData decoder buf) handler in
      if (more : bool) then
        match Receive_loop fuel' transport_ decoder handler with
        | None => None
        | Some (t, d, h, calls') => Some (t, d, h, calls ++ calls')
        end
      else Some (transport_, decoder, handler, calls)
  end.

(** [for (ix = 0; ix != np; ++ix) args[ix] = &handler.GetArg(ix);] with
    [n] iterations left. *)
Fixpoint fill_args (handler : RxHandler.t) (ix n : nat)
  : option (list WireType) :=
  match n with
  | O => Some []
  | S n' =>
      match RxHandler.GetArg handler ix with
      | None => None
      | Some w => option_map (cons w) (fill_args handler (S ix) n')
      end
  end.

Section Receive.
Context {P : Type} {disp : DispatchT T P}.

Definition Receive (fuel : nat) (transport_ : T) (top_dispatch : P)
  : Outcome (T * Z * list DispatchCall) :=
  match Receive_loop fuel transport_ Decoder_new RxHandler.init with
  | None => OutOfFuel
  | Some (transport_, decoder, handler, _) =>
      if negb (Success decoder) then Returns (transport_, to_size_t (-1), [])
      else
        let np := RxHandler.GetArgCount handler in
        if kMaxNumArgs <? Z.of_nat np then
          Returns (transport_, to_size_t (-2), [])
        else
          match fill_args handler 0 np with
          | None => OutOfBounds
          | Some args =>
              let id := RxHandler.MsgId handler in
              match MsgHandler top_dispatch id with
              | None => Returns (transport_, to_size_t (-3), [DMsgHandler id])
              | Some dispatch =>
                  let '(transport_, r) :=
                    OnMsgIn dispatch id transport_ args (Z.of_nat np) in
                  Returns (transport_, to_size_t r,
                           [DMsgHandler id; DOnMsgIn id args (Z.of_nat np)])
              end
          end
  end.

End Receive.
End Channel.

(* ================================================================== *)
(** ** A reference encoder, decoder, transport and dispatch *)

(** The channel is a template over its transport, encoder and decoder,
    and [Receive] over the dispatch; the tree has no implementation of any
    of them.  The module below has one of each, to run the channel on. *)
Module Reference.

(** Little-endian 16 and 32 bit fields. *)
Definition put_u16 (z : Z) : list Z :=
  [z mod 2 ^ 8; (z / 2 ^ 8) mod 2 ^ 8].

Definition put_u32 (z : Z) : list Z :=
  [z mod 2 ^ 8; (z / 2 ^ 8) mod 2 ^ 8; (z / 2 ^ 16) mod 2 ^ 8;
   (z / 2 ^ 24) mod 2 ^ 8].

Definition get_u32 (b : list Z) : option (Z * list Z) :=
  match b with
  | b0 :: b1 :: b2 :: b3 :: rest =>
      Some (b0 + 2 ^ 8 * b1 + 2 ^ 16 * b2 + 2 ^ 24 * b3, rest)
  | _ => None
  end.

Fixpoint get_bytes (n : nat) (b : list Z) : option (list Z * list Z) :=
  match n with
  | O => Some ([], b)
  | S n' =>
      match b with
      | [] => None
      | c :: rest =>
          match get_bytes n' rest with
          | None => None
          | Some (s, rest') => Some (c :: s, rest')
          end
      end
  end.

Fixpoint get_units16 (n : nat) (b : list Z) : option (list Z * list Z) :=
  match n with
  | O => Some ([], b)
  | S n' =>
      match b with
      | b0 :: b1 :: rest =>
          match get_units16 n' rest with
          | None => None
          | Some (s, rest') => Some (b0 + 2 ^ 8 * b1 :: s, rest')
          end
      | _ => None
      end
  end.

(** Modelled from the spec: the reference encoder, which is missing; it
    keeps the encoder contract of spec 4.2 with the format spec 6 suggests,
    "a length-prefixed tag/value stream": a header (message id, element
    count), then the elements, each a kind byte (0 word, 1 string of
    bytes, 2 string of 16 bit units), the tag and the payload.  File
    descriptors and handles travel as words. *)
Record Encoder : Type := mkEncoder {
  e_count : Z;
  e_body : list Z;
  e_msg_id : Z;
  e_closed : bool
}.

Definition add_element (e : Encoder) (bytes : list Z) : Encoder :=
  mkEncoder (e_count e + 1) (e_body e ++ bytes) (e_msg_id e) (e_closed e).

Definition word_element (bits tag : Z) : list Z :=
  0 :: put_u32 (to_uint tag) ++ put_u32 (to_uint bits).

Definition string8_element (s : string8) (tag : Z) : list Z :=
  1 :: put_u32 (to_uint tag) ++ put_u32 (Z.of_nat (length s)) ++ s.

Definition string16_element (s : string16) (tag : Z) : list Z :=
  2 :: put_u32 (to_uint tag) ++ put_u32 (Z.of_nat (length s))
    ++ flat_map put_u16 s.

#[export] Instance Encoder_EncoderT : EncoderT Encoder := {
  Encoder_new := mkEncoder 0 [] 0 false;
  Open _ n_args := (mkEncoder 0 [] 0 false, true);
  Close e := (mkEncoder (e_count e) (e_body e) (e_msg_id e) true, true);
  SetMsgId e msg_id := mkEncoder (e_count e) (e_body e) msg_id (e_closed e);
  OnWord e bits tag := (add_element e (word_element bits tag), true);
  OnString8 e s tag := (add_element e (string8_element s tag), true);
  OnString16 e s tag := (add_element e (string16_element s tag), true);
  OnUnixFd e fd tag := (add_element e (word_element fd tag), true);
  OnWinHandle e h tag := (add_element e (word_element h tag), true);
  GetBuffer e :=
    if e_closed e then
      Some (put_u32 (to_uint (e_msg_id e)) ++ put_u32 (to_uint (e_count e))
              ++ e_body e)
    else None
}.

(** Encoders without a format: they answer [Open], the element calls and
    [Close] as scripted and always offer the same buffer. *)
Record Script : Type := mkScript {
  s_open : bool;
  s_element : bool;
  s_close : bool;
  s_buffer : buffer
}.

Definition Scripted (script : Script) : EncoderT unit := {|
  Encoder_new := tt;
  Open e _ := (e, s_open script);
  Close e := (e, s_close script);
  SetMsgId e _ := e;
  OnWord e _ _ := (e, s_element script);
  OnString8 e _ _ := (e, s_element script);
  OnString16 e _ _ := (e, s_element script);
  OnUnixFd e _ _ := (e, s_element script);
  OnWinHandle e _ _ := (e, s_element script);
  GetBuffer _ := s_buffer script
|}.

(** Four scripts: everything but [Close] refused; only the element calls
    refused; [Close] failing; no buffer after a successful [Close]. *)
Definition Refusing : EncoderT unit :=
  Scripted (mkScript false false true (Some [])).
Definition RejectingElements : EncoderT unit :=
  Scripted (mkScript true false true (Some [])).
Definition FailingClose : EncoderT unit :=
  Scripted (mkScript true true false (Some [])).
Definition WithoutBuffer : EncoderT unit :=
  Scripted (mkScript true true true None).

(** Modelled from the spec: the reference decoder, which is missing; it
    keeps the decoder contract of spec 4.3 for the format above.  One
    buffer holds one message; the decoder calls [OnMessageStart], then one
    callback per element, and is done, and failed, as soon as a callback
    answers [false]. *)
Definition parse_element (b : list Z) : option (HandlerCall * list Z) :=
  match b with
  | [] => None
  | kind :: b1 =>
      match get_u32 b1 with
      | None => None
      | Some (tag, b2) =>
          match get_u32 b2 with
          | None => None
          | Some (word, b3) =>
              if kind =? 0 then Some (HOnWord word (to_int tag), b3)
              else if kind =? 1 then
                match get_bytes (Z.to_nat word) b3 with
                | None => None
                | Some (s, b4) => Some (HOnString8 s (to_int tag), b4)
                end
              else if kind =? 2 then
                match get_units16 (Z.to_nat word) b3 with
                | None => None
                | Some (s, b4) => Some (HOnString16 s (to_int tag), b4)
                end
              else None
          end
      end
  end.

Fixpoint parse_elements (n : nat) (b : list Z)
  : option (list HandlerCall * list Z) :=
  match n with
  | O => Some ([], b)
  | S n' =>
      match parse_element b with
      | None => None
      | Some (c, b1) =>
          match parse_elements n' b1 with
          | None => None
          | Some (cs, b2) => Some (c :: cs, b2)
          end
      end
  end.

Definition parse_message (b : list Z) : option (Z * Z * list HandlerCall) :=
  match get_u32 b with
  | None => None
  | Some (id, b1) =>
      match get_u32 b1 with
      | None => None
      | Some (count, b2) =>
          match parse_elements (Z.to_nat count) b2 with
          | Some (cs, []) => Some (to_int id, count, cs)
          | _ => None
          end
      end
  end.

Record Decoder : Type := mkDecoder { d_ok : bool }.

Fixpoint feed (cs : list HandlerCall) : Callbacks (Decoder * bool) :=
  match cs with
  | [] => Return (mkDecoder true, false)
  | c :: rest =>
      Call c (fun ok => if ok then feed rest
                        else Return (mkDecoder false, false))
  end.

#[export] Instance Decoder_DecoderT : DecoderT Decoder := {
  Decoder_new := mkDecoder false;
  OnData _ buf :=
    match buf with
    | None => Return (mkDecoder false, false)
    | Some bytes =>
        match parse_message bytes with
        | None => Return (mkDecoder false, false)
        | Some (id, count, cs) => feed (HOnMessageStart id count :: cs)
        end
    end;
  Success d := d_ok d
}.

(** A decoder that is done at once, with success, and never calls the
    handler. *)
Definition Silent : DecoderT unit := {|
  Decoder_new := tt;
  OnData d _ := Return (d, false);
  Success _ := true
|}.

(** A decoder that is never done: it asks for more data after every
    buffer, the null buffer too. *)
Definition Greedy : DecoderT unit := {|
  Decoder_new := tt;
  OnData d _ := Return (d, true);
  Success _ := true
|}.

(** Modelled from the spec: a transport (spec 6), which is missing: a
    queue of buffers, written at the back and read at the front; reading
    an empty queue gives the null buffer. *)
Definition Loopback := list (list Z).

#[export] Instance Loopback_TransportT : TransportT Loopback := {
  Transport_Send q buf := (q ++ [buf], Z.of_nat (length buf));
  Transport_Receive q :=
    match q with
    | [] => ([], None)
    | buf :: rest => (rest, Some buf)
    end
}.

(** Modelled from the spec: a dispatch (spec 6), which is missing: the
    message ids that have a handler; a handler answers the number of
    arguments it was given. *)
Record Table : Type := mkTable { registered : list Z }.

#[export] Instance Table_DispatchT (T : Type) : DispatchT T Table := {
  MsgHandler p id :=
    if existsb (Z.eqb id) (registered p) then Some p else None;
  OnMsgIn p id channel args np := (channel, np)
}.

(** Concrete parameters: tags numbered in the order of [type_ids],
    [size_t] of 32 and of 64 bits. *)
#[export] Instance ids : WireTypeIds := {|
  TYPE_NONE := 0; TYPE_INT32 := 1; TYPE_UINT32 := 2; TYPE_CHAR8 := 3;
  TYPE_CHAR16 := 4; TYPE_NULLSTRING8 := 5; TYPE_NULLSTRING16 := 6;
  TYPE_STRING8 := 7; TYPE_STRING16 := 8; TYPE_BARRAY := 9;
  TYPE_UNIX_FD := 10; TYPE_WIN_HANDLE := 11;
  type_ids_distinct :=
    ltac:(repeat (constructor; [simpl; intuition discriminate|]);
          constructor);
  type_ids_int := ltac:(repeat (constructor; [lia|]); constructor)
|}.

Definition size_t32 : SizeT := @Build_SizeT 32 ltac:(lia).
Definition size_t64 : SizeT := @Build_SizeT 64 ltac:(lia).

End Reference.

(* ================================================================== *)
(** * The vocabulary of the statements *)

Unset Implicit Arguments.
Import Reference.

Section Vocabulary.
Context {size_t : SizeT} {tags : WireTypeIds}.
Context {T E P : Type} {enc : EncoderT E} {disp : DispatchT T P}.

(** The tags [OnWord] has a case for. *)
Definition word_tags : list Z :=
  [TYPE_INT32; TYPE_UINT32; TYPE_CHAR8; TYPE_CHAR16;
   TYPE_NULLSTRING8; TYPE_NULLSTRING16].

(** The value [OnWord] builds for a tag it has a case for. *)
Definition word_value (bits type_id : Z) : WireType :=
  if type_id =? TYPE_INT32 then WInt32 (to_int bits)
  else if type_id =? TYPE_UINT32 then WUInt32 (to_uint bits)
  else if type_id =? TYPE_CHAR8 then WChar8 (to_char bits)
  else if type_id =? TYPE_CHAR16 then WChar16 (to_wchar bits)
  else if type_id =? TYPE_NULLSTRING8 then WNullString8
  else WNullString16.

(** The variants the accumulator can build. *)
Definition rx_variant (w : WireType) : bool :=
  match w with
  | WNone | WUnixFd _ | WWinHandle _ => false
  | _ => true
  end.

(** The encoder call [AddMsgElement] makes for a value: none for
    [TYPE_NONE], one otherwise. *)
Definition element_call (wtype : WireType) : list TxCall :=
  match wtype with
  | WNone => []
  | WInt32 _ | WUInt32 _ | WChar8 _ | WChar16 _
  | WNullString8 | WNullString16 => [EOnWord (GetAsBits wtype) (Id wtype)]
  | WString8 s | WByteArray s => [EOnString8 s (Id wtype)]
  | WString16 s => [EOnString16 s (Id wtype)]
  | WUnixFd fd => [EOnUnixFd fd (Id wtype)]
  | WWinHandle h => [EOnWinHandle h (Id wtype)]
  end.

(** [AddMsgElement] case by case, the tag comparisons evaluated. *)
Definition encode_element (encoder : E) (wtype : WireType) : E * bool :=
  match wtype with
  | WNone => (encoder, false)
  | WInt32 _ | WUInt32 _ | WChar8 _ | WChar16 _
  | WNullString8 | WNullString16 =>
      OnWord encoder (GetAsBits wtype) (Id wtype)
  | WString8 s | WByteArray s => OnString8 encoder s (Id wtype)
  | WString16 s => OnString16 encoder s (Id wtype)
  | WUnixFd fd => OnUnixFd encoder fd (Id wtype)
  | WWinHandle h => OnWinHandle encoder h (Id wtype)
  end.

(** The encoder as [Close] finds it. *)
Definition encoder_before_close (msg_id : Z) (args : list WireType) : E :=
  SetMsgId
    (fst (Send_args (fst (Open Encoder_new (Z.of_nat (length args)))) args))
    msg_id.

Definition is_message_start (c : HandlerCall) : bool :=
  match c with HOnMessageStart _ _ => true | _ => false end.

(** The order of section 4.3 of the spec: if the decoder calls the
    handler at all, it calls [OnMessageStart] first. *)
Definition starts_with_message_start (calls : list HandlerCall) : bool :=
  match calls with
  | [] => true
  | c :: _ => is_message_start c
  end.

(** The last two lines of [Receive]: resolve the handler of [id] and hand
    it the arguments. *)
Definition dispatch_message (top_dispatch : P) (transport_ : T) (id : Z)
  (args : list WireType) : T * Z * list DispatchCall :=
  let np := Z.of_nat (length args) in
  match MsgHandler top_dispatch id with
  | None => (transport_, to_size_t (-3), [DMsgHandler id])
  | Some dispatch =>
      let '(transport_, r) := OnMsgIn dispatch id transport_ args np in
      (transport_, to_size_t r, [DMsgHandler id; DOnMsgIn id args np])
  end.

End Vocabulary.

(** ** The reference format *)

(** The bytes the reference encoder appends for an element call. *)
Definition call_bytes (c : TxCall) : list Z :=
  match c with
  | EOnWord bits tag => word_element bits tag
  | EOnString8 s tag => string8_element s tag
  | EOnString16 s tag => string16_element s tag
  | EOnUnixFd fd tag => word_element fd tag
  | EOnWinHandle h tag => word_element h tag
  | _ => []
  end.

(** What the reference decoder calls for the bytes of an element call. *)
Definition delivered (c : TxCall) : list HandlerCall :=
  match c with
  | EOnWord bits tag => [HOnWord (to_uint bits) tag]
  | EOnString8 s tag => [HOnString8 s tag]
  | EOnString16 s tag => [HOnString16 s tag]
  | EOnUnixFd fd tag => [HOnWord (to_uint fd) tag]
  | EOnWinHandle h tag => [HOnWord (to_uint h) tag]
  | _ => []
  end.

(** The message the reference encoder builds from element calls. *)
Definition message_bytes (msg_id : Z) (elements : list TxCall) : list Z :=
  put_u32 (to_uint msg_id)
    ++ put_u32 (to_uint (Z.of_nat (length elements)))
    ++ flat_map call_bytes elements.

Definition int_range (z : Z) : bool := (- 2 ^ 31 <=? z) && (z <? 2 ^ 31).

(** Element calls the format has room for: an [int] tag, a length that
    fits 32 bits, 16 bit units. *)
Definition fits (c : TxCall) : bool :=
  match c with
  | EOnWord _ tag | EOnUnixFd _ tag | EOnWinHandle _ tag => int_range tag
  | EOnString8 s tag => int_range tag && (Z.of_nat (length s) <? 2 ^ 32)
  | EOnString16 s tag =>
      int_range tag && (Z.of_nat (length s) <? 2 ^ 32)
      && forallb (fun c => (0 <=? c) && (c <? 2 ^ 16)) s
  | _ => false
  end.

(** The values the receiving side can rebuild: the nine tags the
    accumulator has a callback case for, with a value in the range of its
    C++ type (a C string has no terminator inside). *)
Definition receivable (w : WireType) : bool :=
  match w with
  | WInt32 v => (- 2 ^ 31 <=? v) && (v <? 2 ^ 31)
  | WUInt32 v => (0 <=? v) && (v <? 2 ^ 32)
  | WChar8 c => (- 2 ^ 7 <=? c) && (c <? 2 ^ 7)
  | WChar16 c => (0 <=? c) && (c <? 2 ^ 16)
  | WNullString8 | WNullString16 => true
  | WString8 s =>
      forallb (fun c => negb (c =? 0)) s && (Z.of_nat (length s) <? 2 ^ 32)
  | WByteArray b => Z.of_nat (length b) <? 2 ^ 32
  | WString16 s =>
      forallb (fun c => negb (c =? 0)) s && (Z.of_nat (length s) <? 2 ^ 32)
      && forallb (fun c => (0 <=? c) && (c <? 2 ^ 16)) s
  | WNone | WUnixFd _ | WWinHandle _ => false
  end.

(** ** Sequences of callbacks *)

Section CallbackVocabulary.
Context {tags : WireTypeIds}.

(** The handler after a sequence of callbacks, whatever they answered. *)
Definition apply_calls (h : RxHandler.t) (calls : list HandlerCall)
  : RxHandler.t :=
  fold_left (fun h c => fst (apply_call h c)) calls h.

(** The value a callback appends: none when it is [OnMessageStart] or
    the callback has no case for the tag. *)
Definition accepted_value (c : HandlerCall) : list WireType :=
  match c with
  | HOnMessageStart _ _ => []
  | HOnWord bits type_id =>
      if existsb (Z.eqb type_id) word_tags
      then [word_value bits type_id] else []
  | HOnString8 str type_id =>
      if type_id =? TYPE_STRING8 then [WString8 (c_str str)]
      else if type_id =? TYPE_BARRAY then [WByteArray str]
      else []
  | HOnString16 str type_id =>
      if type_id =? TYPE_STRING16 then [WString16 (c_str str)] else []
  end.

(** The id of the last [OnMessageStart] among the calls, [id] when there
    is none. *)
Definition last_message_id (calls : list HandlerCall) (id : Z) : Z :=
  fold_left
    (fun id c => match c with HOnMessageStart id' _ => id' | _ => id end)
    calls id.

End CallbackVocabulary.

(** The handler callback with the same name and the same arguments as an
    encoder call; [OnUnixFd] and [OnWinHandle] have none. *)
Definition callback_of (c : TxCall) : option HandlerCall :=
  match c with
  | EOnWord bits tag => Some (HOnWord bits tag)
  | EOnString8 s tag => Some (HOnString8 s tag)
  | EOnString16 s tag => Some (HOnString16 s tag)
  | _ => None
  end.

Definition is_transport_send (c : TxCall) : bool :=
  match c with ETransportSend _ => true | _ => false end.

(** The tag an element call carries. *)
Definition call_tag (c : TxCall) : option Z :=
  match c with
  | EOnWord _ tag | EOnString8 _ tag | EOnString16 _ tag
  | EOnUnixFd _ tag | EOnWinHandle _ tag => Some tag
  | _ => None
  end.

(* ================================================================== *)
(** * Properties *)

(** ** Tags *)

(** Two tags are equal exactly when they stand at the same place of
    [type_ids]. *)
Lemma tag_eqb_nth {tags : WireTypeIds} (i j : nat) :
  (i < 12)%nat -> (j < 12)%nat ->
  (nth i type_ids 0 =? nth j type_ids 0) = (i =? j)%nat.
Proof.
  intros Hi Hj.
  destruct (Nat.eqb_spec i j) as [->|Hne].
  - apply Z.eqb_refl.
  - apply Z.eqb_neq. intro e. apply Hne.
    apply (proj1 (NoDup_nth type_ids 0) type_ids_distinct i j); auto.
Qed.

Ltac tag_index a :=
  lazymatch a with
  | @TYPE_NONE _ => constr:(0%nat)
  | @TYPE_INT32 _ => constr:(1%nat)
  | @TYPE_UINT32 _ => constr:(2%nat)
  | @TYPE_CHAR8 _ => constr:(3%nat)
  | @TYPE_CHAR16 _ => constr:(4%nat)
  | @TYPE_NULLSTRING8 _ => constr:(5%nat)
  | @TYPE_NULLSTRING16 _ => constr:(6%nat)
  | @TYPE_STRING8 _ => constr:(7%nat)
  | @TYPE_STRING16 _ => constr:(8%nat)
  | @TYPE_BARRAY _ => constr:(9%nat)
  | @TYPE_UNIX_FD _ => constr:(10%nat)
  | @TYPE_WIN_HANDLE _ => constr:(11%nat)
  end.

(** Evaluates every comparison of two tag constants in the goal. *)
Ltac decide_tags :=
  repeat match goal with
  | |- context [?a =? ?b] =>
      let i := tag_index a in
      let j := tag_index b in
      change (a =? b) with (nth i type_ids 0 =? nth j type_ids 0);
      rewrite (@tag_eqb_nth _ i j) by (simpl; lia);
      cbn [Nat.eqb]
  end; cbn [orb].

(** ** [size_t] *)

Section SizeTFacts.
Context {size_t : SizeT}.

Lemma size_max_big : 2 ^ 16 <= 2 ^ size_bits.
Proof. apply Z.pow_le_mono_r; [lia | apply size_bits_ge]. Qed.

Lemma to_size_t_range z : 0 <= to_size_t z < 2 ^ size_bits.
Proof. unfold to_size_t. apply Z.mod_pos_bound. pose proof size_max_big. lia. Qed.

(** [(size_t)(-k)] is [SIZE_MAX + 1 - k]. *)
Lemma to_size_t_neg k :
  0 < k <= 2 ^ 16 -> to_size_t (- k) = 2 ^ size_bits - k.
Proof.
  intros Hk. unfold to_size_t. pose proof size_max_big as Hb.
  symmetry. apply (Z.mod_unique_pos _ _ (-1)); lia.
Qed.

Lemma to_size_t_small z : 0 <= z < 2 ^ 16 -> to_size_t z = z.
Proof.
  intros Hz. unfold to_size_t. pose proof size_max_big.
  apply Z.mod_small. lia.
Qed.

End SizeTFacts.

(** ** The accumulator *)

Section RxHandlerFacts.
Context {tags : WireTypeIds}.

Lemma word_value_Id bits type_id :
  In type_id word_tags -> Id (word_value bits type_id) = type_id.
Proof.
  unfold word_tags, word_value. simpl.
  intros [<-|[<-|[<-|[<-|[<-|[<-|[]]]]]]]; decide_tags; reflexivity.
Qed.

Lemma OnWord_accepts h bits type_id :
  In type_id word_tags ->
  RxHandler.OnWord h bits type_id
  = (RxHandler.push_back h (word_value bits type_id), true).
Proof.
  unfold word_tags, word_value, RxHandler.OnWord. simpl.
  intros [<-|[<-|[<-|[<-|[<-|[<-|[]]]]]]]; decide_tags; reflexivity.
Qed.

Lemma OnWord_rejects h bits type_id :
  ~ In type_id word_tags -> RxHandler.OnWord h bits type_id = (h, false).
Proof.
  unfold word_tags, RxHandler.OnWord. simpl. intros Hn.
  repeat match goal with
  | |- context [type_id =? ?c] =>
      destruct (Z.eqb_spec type_id c); [exfalso; apply Hn; subst; tauto|]
  end.
  reflexivity.
Qed.

(** C7.  Whatever [bits] and [type_id] are, [OnWord] either appends one
    value to the argument list, whose tag is [type_id], leaves the message
    id alone and answers [true] -- when [type_id] is one of [TYPE_INT32],
    [TYPE_UINT32], [TYPE_CHAR8], [TYPE_CHAR16], [TYPE_NULLSTRING8],
    [TYPE_NULLSTRING16] -- or, for any other [type_id], answers [false]
    and leaves the accumulator as it was. *)
Theorem OnWord_appends_one_or_rejects (h : RxHandler.t) (bits type_id : Z) :
  (In type_id word_tags ->
     exists w : WireType,
       Id w = type_id /\
       RxHandler.OnWord h bits type_id
       = (RxHandler.mk (RxHandler.list_ h ++ [w]) (RxHandler.msg_id_ h), true))
  /\ (~ In type_id word_tags ->
        RxHandler.OnWord h bits type_id = (h, false)).
Proof.
  split.
  - intros Hin. exists (word_value bits type_id). split.
    + now apply word_value_Id.
    + now apply OnWord_accepts.
  - apply OnWord_rejects.
Qed.

(** [GetArg] answers inside the vector and nowhere else. *)
Lemma GetArg_Some_iff (h : RxHandler.t) (ix : nat) :
  (exists w, RxHandler.GetArg h ix = Some w)
  <-> (ix < RxHandler.GetArgCount h)%nat.
Proof.
  unfold RxHandler.GetArg, RxHandler.GetArgCount. split.
  - intros [w Hw]. apply nth_error_Some. congruence.
  - intros Hlt. destruct (nth_error (RxHandler.list_ h) ix) eqn:E.
    + now exists w.
    + apply nth_error_None in E. lia.
Qed.

Lemma fill_args_skipn (h : RxHandler.t) (n ix : nat) :
  (ix + n = RxHandler.GetArgCount h)%nat ->
  fill_args h ix n = Some (skipn ix (RxHandler.list_ h)).
Proof.
  unfold RxHandler.GetArgCount. revert ix.
  induction n as [|n IH]; intros ix Hlen; simpl.
  - rewrite skipn_all2 by lia. reflexivity.
  - unfold RxHandler.GetArg.
    destruct (nth_error (RxHandler.list_ h) ix) as [w|] eqn:E.
    + rewrite IH by lia. simpl. f_equal.
      clear IH. revert ix Hlen E.
      generalize (RxHandler.list_ h) as l.
      induction l as [|a l IHl]; intros [|ix] Hlen E; simpl in *;
        try discriminate.
      * congruence.
      * apply IHl; [lia | assumption].
    + apply nth_error_None in E. lia.
Qed.

(** The loop that fills [args] in [Receive] stays inside the vector. *)
Lemma fill_args_all (h : RxHandler.t) :
  fill_args h 0 (RxHandler.GetArgCount h) = Some (RxHandler.list_ h).
Proof. now rewrite fill_args_skipn. Qed.

End RxHandlerFacts.

(** ** Sending *)

Section SendFacts.
Context {size_t : SizeT} {tags : WireTypeIds}.
Context {T E : Type} {transport : TransportT T} {enc : EncoderT E}.

Lemma AddMsgElement_by_variant (encoder : E) (wtype : WireType) :
  AddMsgElement encoder wtype
  = (encode_element encoder wtype, element_call wtype).
Proof.
  unfold AddMsgElement.
  destruct wtype; cbn [Id encode_element element_call GetString8
                       GetString16 GetUnixFD GetWinHandle];
    decide_tags; reflexivity.
Qed.

Lemma element_call_length (wtype : WireType) :
  length (element_call wtype) = if Id wtype =? TYPE_NONE then 0%nat else 1%nat.
Proof. destruct wtype; cbn [Id element_call]; decide_tags; reflexivity. Qed.

Lemma Send_args_calls (encoder : E) (args : list WireType) :
  snd (Send_args encoder args) = flat_map element_call args.
Proof.
  revert encoder. induction args as [|w args IH]; intros encoder; simpl.
  - reflexivity.
  - rewrite AddMsgElement_by_variant.
    destruct (encode_element encoder w) as [e1 ok].
    specialize (IH e1). destruct (Send_args e1 args) as [e2 cs].
    simpl in *. now rewrite IH.
Qed.

(** Nothing in the loop depends on what [AddMsgElement] answered. *)
Lemma Send_args_cons (encoder : E) (w : WireType) (rest : list WireType) :
  Send_args encoder (w :: rest)
  = (fst (Send_args (fst (encode_element encoder w)) rest),
     element_call w ++ snd (Send_args (fst (encode_element encoder w)) rest)).
Proof.
  simpl. rewrite AddMsgElement_by_variant.
  destruct (encode_element encoder w) as [e1 ok]. simpl.
  now destruct (Send_args e1 rest).
Qed.

Lemma Send_args_app (encoder : E) (l1 l2 : list WireType) :
  Send_args encoder (l1 ++ l2)
  = (fst (Send_args (fst (Send_args encoder l1)) l2),
     snd (Send_args encoder l1) ++ snd (Send_args (fst (Send_args encoder l1)) l2)).
Proof.
  revert encoder. induction l1 as [|w l1 IH]; intros encoder.
  - simpl. now destruct (Send_args encoder l2).
  - rewrite <- app_comm_cons, !Send_args_cons, IH. simpl.
    now rewrite app_assoc.
Qed.

(** The calls of [Send], whatever the encoder and the transport answer:
    [Open], the element calls in argument order, [SetMsgId], [Close], and
    then what depends on [Close] and [GetBuffer]. *)
Lemma Send_calls (transport_ : T) (msg_id : Z) (args : list WireType) :
  exists tail : list TxCall,
    snd (Send transport_ msg_id args)
    = EOpen (Z.of_nat (length args)) :: flat_map element_call args
        ++ ESetMsgId msg_id :: EClose :: tail
    /\ (tail = [] \/ tail = [EGetBuffer]
        \/ exists buf, tail = [EGetBuffer; ETransportSend buf]).
Proof.
  unfold Send.
  destruct (Open Encoder_new (Z.of_nat (length args))) as [e0 opened].
  pose proof (Send_args_calls e0 args) as Hcs.
  destruct (Send_args e0 args) as [e1 cs]. simpl in Hcs. subst cs.
  destruct (Close (SetMsgId e1 msg_id)) as [e2 closed].
  destruct closed; simpl.
  - destruct (GetBuffer e2) as [buf|].
    + destruct (Transport_Send transport_ buf) as [t1 sent]. simpl.
      exists [EGetBuffer; ETransportSend buf]. split.
      * now rewrite <- app_assoc.
      * right; right; now exists buf.
    + simpl. exists [EGetBuffer]. split.
      * now rewrite <- app_assoc.
      * right; now left.
  - exists []. split; [reflexivity | now left].
Qed.

End SendFacts.

(** ** Callbacks *)

Section CallbackFacts.
Context {tags : WireTypeIds}.

(** Only [OnMessageStart] writes [msg_id_]. *)
Lemma apply_call_msg_id (h : RxHandler.t) (c : HandlerCall) :
  is_message_start c = false ->
  RxHandler.msg_id_ (fst (apply_call h c)) = RxHandler.msg_id_ h.
Proof.
  destruct c; simpl; try discriminate; intros _;
    unfold RxHandler.OnWord, RxHandler.OnString8, RxHandler.OnString16;
    repeat match goal with
    | |- context [if ?b then _ else _] => destruct b
    end; reflexivity.
Qed.

Lemma run_callbacks_msg_id {A : Type} (p : Callbacks A) (h : RxHandler.t) :
  existsb is_message_start (snd (run_callbacks p h)) = false ->
  RxHandler.msg_id_ (snd (fst (run_callbacks p h))) = RxHandler.msg_id_ h.
Proof.
  revert h. induction p as [a|c k IH]; intros h; simpl.
  - reflexivity.
  - pose proof (apply_call_msg_id h c) as Hc.
    destruct (apply_call h c) as [h1 ok]. specialize (IH ok h1).
    destruct (run_callbacks (k ok) h1) as [[a h2] calls]. simpl in *.
    intros Hno. apply orb_false_iff in Hno. destruct Hno as [Hc1 Hrest].
    rewrite IH by assumption. now apply Hc.
Qed.

Lemma run_callbacks_nil {A : Type} (p : Callbacks A) (h : RxHandler.t) :
  snd (run_callbacks p h) = [] -> snd (fst (run_callbacks p h)) = h.
Proof.
  destruct p as [a|c k]; simpl.
  - reflexivity.
  - destruct (apply_call h c) as [h1 ok].
    destruct (run_callbacks (k ok) h1) as [[a h2] calls]. discriminate.
Qed.

(** Every callback case builds a value of one of nine variants. *)
Lemma apply_call_variants (h : RxHandler.t) (c : HandlerCall) :
  forallb rx_variant (RxHandler.list_ h) = true ->
  forallb rx_variant (RxHandler.list_ (fst (apply_call h c))) = true.
Proof.
  intros Hh.
  destruct c; cbn [apply_call RxHandler.OnMessageStart fst RxHandler.list_];
    try assumption;
    unfold RxHandler.OnWord, RxHandler.OnString8, RxHandler.OnString16;
    repeat match goal with
    | |- context [if ?b then _ else _] => destruct b
    end;
    cbn [fst RxHandler.push_back RxHandler.list_]; try assumption;
    rewrite forallb_app, Hh; reflexivity.
Qed.

Lemma run_callbacks_variants {A : Type} (p : Callbacks A) (h : RxHandler.t) :
  forallb rx_variant (RxHandler.list_ h) = true ->
  forallb rx_variant (RxHandler.list_ (snd (fst (run_callbacks p h)))) = true.
Proof.
  revert h. induction p as [a|c k IH]; intros h Hh; cbn [run_callbacks].
  - assumption.
  - pose proof (apply_call_variants h c Hh) as Hc.
    destruct (apply_call h c) as [h1 ok]. specialize (IH ok h1 Hc).
    now destruct (run_callbacks (k ok) h1) as [[a h2] calls].
Qed.

End CallbackFacts.

(** ** Receiving *)

Section ReceiveFacts.
Context {size_t : SizeT} {tags : WireTypeIds}.
Context {T D P : Type}.
Context {transport : TransportT T} {dec : DecoderT D} {disp : DispatchT T P}.

(** A loop that has ended ends the same way with more fuel. *)
Lemma Receive_loop_more_fuel (fuel fuel' : nat) t (d : D) h r :
  Receive_loop fuel t d h = Some r -> (fuel <= fuel')%nat ->
  Receive_loop fuel' t d h = Some r.
Proof.
  revert fuel' t d h r.
  induction fuel as [|fuel IH]; intros fuel' t d h r Hr Hle; simpl in Hr.
  - discriminate.
  - destruct fuel' as [|fuel']; [lia|]. simpl.
    destruct (Transport_Receive t) as [t1 buf].
    destruct (run_callbacks (OnData d buf) h) as [[[d1 more] h1] calls].
    destruct more; [|assumption].
    destruct (Receive_loop fuel t1 d1 h1) as [[[[t2 d2] h2] calls2]|] eqn:E;
      [|discriminate].
    rewrite (IH fuel' t1 d1 h1 _ E) by lia. assumption.
Qed.

(** [Receive] once its loop has ended. *)
Lemma Receive_after_loop (fuel fuel' : nat) t (top : P) t' (d : D) h calls :
  Receive_loop fuel t Decoder_new RxHandler.init = Some (t', d, h, calls) ->
  (fuel <= fuel')%nat ->
  Receive fuel' t top
  = if negb (Success d) then Returns (t', to_size_t (-1), [])
    else if kMaxNumArgs <? Z.of_nat (RxHandler.GetArgCount h)
         then Returns (t', to_size_t (-2), [])
         else Returns (dispatch_message top t' (RxHandler.MsgId h)
                         (RxHandler.list_ h)).
Proof.
  intros Hloop Hle. unfold Receive.
  rewrite (Receive_loop_more_fuel fuel fuel' _ _ _ _ Hloop Hle).
  destruct (negb (Success d)); [reflexivity|].
  destruct (kMaxNumArgs <? Z.of_nat (RxHandler.GetArgCount h));
    [reflexivity|].
  rewrite fill_args_all. unfold dispatch_message, RxHandler.GetArgCount.
  destruct (MsgHandler top (RxHandler.MsgId h)) as [p|]; [|reflexivity].
  now destruct (OnMsgIn p (RxHandler.MsgId h) t' (RxHandler.list_ h)
                  (Z.of_nat (length (RxHandler.list_ h)))).
Qed.

(** [Receive] never indexes the vector out of bounds. *)
Lemma Receive_in_bounds (fuel : nat) t (top : P) :
  Receive (D := D) fuel t top <> OutOfBounds.
Proof.
  destruct (Receive_loop fuel t Decoder_new RxHandler.init)
    as [[[[t' d] h] calls]|] eqn:E.
  - rewrite (Receive_after_loop fuel fuel t top _ _ _ _ E (Nat.le_refl _)).
    destruct (negb (Success d)); [discriminate|].
    destruct (kMaxNumArgs <? _); discriminate.
  - unfold Receive. rewrite E. discriminate.
Qed.

(** Without a call of [OnMessageStart] the message id stays what it
    was; without any call the whole accumulator does. *)
Lemma Receive_loop_handler (fuel : nat) t (d : D) h t' d' h' calls :
  Receive_loop fuel t d h = Some (t', d', h', calls) ->
  (existsb is_message_start calls = false ->
     RxHandler.msg_id_ h' = RxHandler.msg_id_ h)
  /\ (calls = [] -> h' = h).
Proof.
  revert t d h t' d' h' calls.
  induction fuel as [|fuel IH]; intros t d h t' d' h' calls Hloop;
    simpl in Hloop; [discriminate|].
  destruct (Transport_Receive t) as [t1 buf].
  pose proof (run_callbacks_msg_id (OnData d buf) h) as Hid.
  pose proof (run_callbacks_nil (OnData d buf) h) as Hnil.
  destruct (run_callbacks (OnData d buf) h) as [[[d1 more] h1] calls1].
  simpl in Hid, Hnil.
  destruct more.
  - destruct (Receive_loop fuel t1 d1 h1) as [[[[t2 d2] h2] calls2]|] eqn:E;
      [|discriminate].
    injection Hloop as <- <- <- <-.
    destruct (IH _ _ _ _ _ _ _ E) as [IHid IHnil]. split.
    + rewrite existsb_app. intros Hno.
      apply orb_false_iff in Hno. destruct Hno as [H1 H2].
      rewrite IHid by assumption. now apply Hid.
    + intros Happ. apply app_eq_nil in Happ. destruct Happ as [H1 H2].
      rewrite IHnil by assumption. now apply Hnil.
  - injection Hloop as <- <- <- <-. split; assumption.
Qed.

(** Whatever the decoder does, the arguments [Receive] ends up with are
    of the nine variants: no value of tag [TYPE_NONE], [TYPE_UNIX_FD] or
    [TYPE_WIN_HANDLE] comes out of the accumulator. *)
Lemma Receive_loop_variants (fuel : nat) t (d : D) h t' d' h' calls :
  Receive_loop fuel t d h = Some (t', d', h', calls) ->
  forallb rx_variant (RxHandler.list_ h) = true ->
  forallb rx_variant (RxHandler.list_ h') = true.
Proof.
  revert t d h t' d' h' calls.
  induction fuel as [|fuel IH]; intros t d h t' d' h' calls Hloop Hh;
    simpl in Hloop; [discriminate|].
  destruct (Transport_Receive t) as [t1 buf].
  pose proof (run_callbacks_variants (OnData d buf) h Hh) as Hv.
  destruct (run_callbacks (OnData d buf) h) as [[[d1 more] h1] calls1].
  simpl in Hv. destruct more.
  - destruct (Receive_loop fuel t1 d1 h1) as [[[[t2 d2] h2] calls2]|] eqn:E;
      [|discriminate].
    injection Hloop as <- <- <- <-. exact (IH _ _ _ _ _ _ _ E Hv).
  - now injection Hloop as <- <- <- <-.
Qed.

(** C3.  When the decoder has ended with success and the accumulator
    holds more than [kMaxNumArgs] (8) arguments, [Receive] returns
    [(size_t)-2] without a single call on the dispatch objects: neither
    [MsgHandler] nor [OnMsgIn]. *)
Theorem Receive_rejects_over_cap (fuel fuel' : nat) t (top : P) t' (d : D)
  h calls :
  Receive_loop fuel t Decoder_new RxHandler.init = Some (t', d, h, calls) ->
  (fuel <= fuel')%nat ->
  Success d = true ->
  kMaxNumArgs < Z.of_nat (RxHandler.GetArgCount h) ->
  Receive fuel' t top = Returns (t', 2 ^ size_bits - 2, []).
Proof.
  intros Hloop Hle Hok Hcap.
  rewrite (Receive_after_loop _ _ _ top _ _ _ _ Hloop Hle), Hok.
  simpl negb. cbv iota.
  apply Z.ltb_lt in Hcap. rewrite Hcap.
  rewrite (to_size_t_neg 2) by lia. reflexivity.
Qed.

(** C4.  The three ways [Receive] fails once its loop has ended: the
    decoder reports no success, [(size_t)-1]; more than [kMaxNumArgs]
    arguments, [(size_t)-2]; no handler for the message id, [(size_t)-3].
    The three values differ, and on none of the three paths is [OnMsgIn]
    called (on the first two not even [MsgHandler]). *)
Theorem Receive_failure_paths (fuel fuel' : nat) t (top : P) t' (d : D)
  h calls :
  Receive_loop fuel t Decoder_new RxHandler.init = Some (t', d, h, calls) ->
  (fuel <= fuel')%nat ->
  (Success d = false ->
     Receive fuel' t top = Returns (t', 2 ^ size_bits - 1, []))
  /\ (Success d = true ->
      kMaxNumArgs < Z.of_nat (RxHandler.GetArgCount h) ->
      Receive fuel' t top = Returns (t', 2 ^ size_bits - 2, []))
  /\ (Success d = true ->
      Z.of_nat (RxHandler.GetArgCount h) <= kMaxNumArgs ->
      MsgHandler top (RxHandler.MsgId h) = None ->
      Receive fuel' t top
      = Returns (t', 2 ^ size_bits - 3, [DMsgHandler (RxHandler.MsgId h)]))
  /\ 2 ^ size_bits - 1 <> 2 ^ size_bits - 2
  /\ 2 ^ size_bits - 1 <> 2 ^ size_bits - 3
  /\ 2 ^ size_bits - 2 <> 2 ^ size_bits - 3.
Proof.
  intros Hloop Hle.
  pose proof (Receive_after_loop _ _ _ top _ _ _ _ Hloop Hle) as HR.
  repeat split; try lia.
  - intros Hok. rewrite HR, Hok. simpl.
    now rewrite (to_size_t_neg 1) by lia.
  - intros Hok Hcap. rewrite HR, Hok. simpl negb. cbv iota.
    apply Z.ltb_lt in Hcap. rewrite Hcap.
    now rewrite (to_size_t_neg 2) by lia.
  - intros Hok Hcap Hnone. rewrite HR, Hok. simpl negb. cbv iota.
    apply Z.ltb_ge in Hcap. rewrite Hcap.
    unfold dispatch_message. rewrite Hnone.
    now rewrite (to_size_t_neg 3) by lia.
Qed.

(** C10.  When the decoder has ended with success and never called
    [OnMessageStart], the message id [Receive] works with is the -1 of the
    accumulator's constructor, and [Receive] does not stop on it: within
    the cap it resolves the handler of -1 and hands it the accumulated
    arguments.  A decoder that keeps the order of the decoder contract
    (first [OnMessageStart], then the arguments) has then made no call at
    all, so the message dispatched has id -1 and zero arguments. *)
Theorem Receive_dispatches_initial_id (fuel fuel' : nat) t (top : P) t'
  (d : D) h calls :
  Receive_loop fuel t Decoder_new RxHandler.init = Some (t', d, h, calls) ->
  (fuel <= fuel')%nat ->
  Success d = true ->
  existsb is_message_start calls = false ->
  RxHandler.MsgId h = -1
  /\ (Z.of_nat (RxHandler.GetArgCount h) <= kMaxNumArgs ->
      Receive fuel' t top
      = Returns (dispatch_message top t' (-1) (RxHandler.list_ h)))
  /\ (starts_with_message_start calls = true ->
      RxHandler.GetArgCount h = 0%nat
      /\ Receive fuel' t top
         = match MsgHandler top (-1) with
           | None => Returns (t', 2 ^ size_bits - 3, [DMsgHandler (-1)])
           | Some dispatch =>
               let '(t'', r) := OnMsgIn dispatch (-1) t' [] 0 in
               Returns (t'', to_size_t r,
                        [DMsgHandler (-1); DOnMsgIn (-1) [] 0])
           end).
Proof.
  intros Hloop Hle Hok Hno.
  destruct (Receive_loop_handler _ _ _ _ _ _ _ _ Hloop) as [Hid Hnil].
  assert (Hm : RxHandler.MsgId h = -1) by (apply Hid; assumption).
  pose proof (Receive_after_loop _ _ _ top _ _ _ _ Hloop Hle) as HR.
  rewrite Hok, Hm in HR. simpl negb in HR. cbv iota in HR.
  split; [assumption|]. split.
  - intros Hcap. apply Z.ltb_ge in Hcap. now rewrite HR, Hcap.
  - intros Hstart.
    assert (Hc : calls = []).
    { destruct calls as [|c calls]; [reflexivity|].
      simpl in Hstart, Hno. rewrite Hstart in Hno. discriminate. }
    rewrite (Hnil Hc) in *. split; [reflexivity|].
    rewrite HR. simpl. unfold dispatch_message. simpl.
    destruct (MsgHandler top (-1)) as [p|].
    + now destruct (OnMsgIn p (-1) t' [] 0).
    + now rewrite (to_size_t_neg 3) by lia.
Qed.

(** C6 (as amended).  [GetArg] does not check its index: it yields an
    argument exactly for the indices below [GetArgCount], and any other
    index is an access outside the vector.  The channel itself stays
    inside: [Receive] never ends in such an access. *)
Theorem GetArg_defined_below_count :
  (forall (h : RxHandler.t) (ix : nat),
     (ix < RxHandler.GetArgCount h)%nat
     <-> exists w, RxHandler.GetArg h ix = Some w)
  /\ (forall (h : RxHandler.t) (ix : nat),
        (RxHandler.GetArgCount h <= ix)%nat
        <-> RxHandler.GetArg h ix = None)
  /\ (forall (fuel : nat) (t : T) (top : P),
        Receive (D := D) fuel t top <> OutOfBounds).
Proof.
  split; [|split].
  - intros h ix. symmetry. apply GetArg_Some_iff.
  - intros h ix. unfold RxHandler.GetArg, RxHandler.GetArgCount.
    symmetry. apply nth_error_None.
  - apply Receive_in_bounds.
Qed.

End ReceiveFacts.

(** ** The reference encoder and decoder *)

(** Arithmetic of the little-endian fields. *)
Ltac byte_arith :=
  change (2 ^ 7) with 128 in *; change (2 ^ 8) with 256 in *;
  change (2 ^ 16) with 65536 in *; change (2 ^ 24) with 16777216 in *;
  change (2 ^ 31) with 2147483648 in *;
  change (2 ^ 32) with 4294967296 in *;
  Z.to_euclidean_division_equations; lia.

Lemma to_uint_range z : 0 <= to_uint z < 2 ^ 32.
Proof. unfold to_uint. byte_arith. Qed.

Lemma to_uint_small z : 0 <= z < 2 ^ 32 -> to_uint z = z.
Proof. unfold to_uint. intros. byte_arith. Qed.

Lemma to_int_to_uint z : - 2 ^ 31 <= z < 2 ^ 31 -> to_int (to_uint z) = z.
Proof. unfold to_int, to_uint. intros. byte_arith. Qed.

Lemma get_put_u32 z rest :
  0 <= z < 2 ^ 32 -> get_u32 (put_u32 z ++ rest) = Some (z, rest).
Proof.
  intros Hz. unfold put_u32, get_u32. cbn [app]. do 2 f_equal. byte_arith.
Qed.

Lemma get_bytes_app s rest : get_bytes (length s) (s ++ rest) = Some (s, rest).
Proof.
  induction s as [|c s IH]; simpl; [reflexivity | now rewrite IH].
Qed.

Lemma get_units16_app s rest :
  forallb (fun c => (0 <=? c) && (c <? 2 ^ 16)) s = true ->
  get_units16 (length s) (flat_map put_u16 s ++ rest) = Some (s, rest).
Proof.
  induction s as [|c s IH];
    cbn [forallb flat_map get_units16 length app put_u16];
    [reflexivity|].
  intros Hs. apply andb_true_iff in Hs. destruct Hs as [Hc Hs].
  rewrite (IH Hs). do 3 f_equal.
  apply andb_true_iff in Hc. destruct Hc as [H0 H1].
  apply Z.leb_le in H0. apply Z.ltb_lt in H1. byte_arith.
Qed.

Lemma int_range_spec z : int_range z = true -> - 2 ^ 31 <= z < 2 ^ 31.
Proof.
  unfold int_range. intros Hz. apply andb_true_iff in Hz.
  destruct Hz as [H0 H1]. apply Z.leb_le in H0. apply Z.ltb_lt in H1. lia.
Qed.

Lemma parse_word_element bits tag rest :
  int_range tag = true ->
  parse_element (word_element bits tag ++ rest)
  = Some (HOnWord (to_uint bits) tag, rest).
Proof.
  intros Ht. apply int_range_spec in Ht.
  unfold parse_element, word_element. cbn [app].
  rewrite <- app_assoc, get_put_u32 by apply to_uint_range.
  rewrite get_put_u32 by apply to_uint_range.
  now rewrite Z.eqb_refl, to_int_to_uint.
Qed.

Lemma parse_element_call c rest :
  fits c = true ->
  exists hc, delivered c = [hc]
             /\ parse_element (call_bytes c ++ rest) = Some (hc, rest).
Proof.
  destruct c as [n|bits tag|s tag|s tag|fd tag|h tag|id| | |buf];
    cbn [fits call_bytes delivered]; try discriminate; intros Hf.
  - eexists. split; [reflexivity|]. now apply parse_word_element.
  - apply andb_true_iff in Hf. destruct Hf as [Ht Hl].
    apply int_range_spec in Ht. apply Z.ltb_lt in Hl.
    eexists. split; [reflexivity|].
    unfold parse_element, string8_element. cbn [app].
    rewrite <- !app_assoc, get_put_u32 by apply to_uint_range.
    rewrite get_put_u32 by lia.
    change (1 =? 0) with false. cbv iota. rewrite Z.eqb_refl.
    now rewrite Nat2Z.id, get_bytes_app, to_int_to_uint.
  - apply andb_true_iff in Hf. destruct Hf as [Hf Hu].
    apply andb_true_iff in Hf. destruct Hf as [Ht Hl].
    apply int_range_spec in Ht. apply Z.ltb_lt in Hl.
    eexists. split; [reflexivity|].
    unfold parse_element, string16_element. cbn [app].
    rewrite <- !app_assoc, get_put_u32 by apply to_uint_range.
    rewrite get_put_u32 by lia.
    change (2 =? 0) with false. change (2 =? 1) with false. cbv iota.
    rewrite Z.eqb_refl.
    now rewrite Nat2Z.id, get_units16_app, to_int_to_uint.
  - eexists. split; [reflexivity|]. now apply parse_word_element.
  - eexists. split; [reflexivity|]. now apply parse_word_element.
Qed.

Lemma delivered_length cs :
  forallb fits cs = true -> length (flat_map delivered cs) = length cs.
Proof.
  induction cs as [|c cs IH]; simpl; [reflexivity|].
  intros Hf. apply andb_true_iff in Hf. destruct Hf as [Hc Hcs].
  destruct (parse_element_call c [] Hc) as [hc [Hd _]].
  rewrite Hd. simpl. now rewrite IH.
Qed.

Lemma parse_element_calls cs rest :
  forallb fits cs = true ->
  parse_elements (length cs) (flat_map call_bytes cs ++ rest)
  = Some (flat_map delivered cs, rest).
Proof.
  induction cs as [|c cs IH]; simpl; [reflexivity|].
  intros Hf. apply andb_true_iff in Hf. destruct Hf as [Hc Hcs].
  destruct (parse_element_call c (flat_map call_bytes cs ++ rest) Hc)
    as [hc [Hd Hp]].
  rewrite <- app_assoc, Hp, (IH Hcs), Hd. reflexivity.
Qed.

Lemma parse_message_bytes msg_id cs :
  int_range msg_id = true ->
  Z.of_nat (length cs) < 2 ^ 32 ->
  forallb fits cs = true ->
  parse_message (message_bytes msg_id cs)
  = Some (msg_id, Z.of_nat (length cs), flat_map delivered cs).
Proof.
  intros Hid Hlen Hf. apply int_range_spec in Hid.
  unfold parse_message, message_bytes.
  rewrite get_put_u32 by apply to_uint_range.
  rewrite get_put_u32 by apply to_uint_range.
  rewrite to_uint_small by lia. rewrite Nat2Z.id.
  pose proof (parse_element_calls cs [] Hf) as Hp.
  rewrite app_nil_r in Hp. rewrite Hp.
  now rewrite to_int_to_uint.
Qed.

Lemma c_str_no_terminator s :
  forallb (fun c => negb (c =? 0)) s = true -> c_str s = s.
Proof.
  induction s as [|c s IH]; cbn [forallb c_str]; [reflexivity|].
  intros Hs. apply andb_true_iff in Hs. destruct Hs as [Hc Hs].
  apply negb_true_iff in Hc. now rewrite Hc, IH.
Qed.

Section ReferenceFacts.
Context {size_t : SizeT} {tags : WireTypeIds}.

Lemma Id_int_range (w : WireType) : int_range (Id w) = true.
Proof.
  pose proof type_ids_int as Hr. rewrite Forall_forall in Hr.
  assert (Hin : In (Id w) type_ids).
  { unfold type_ids. destruct w; cbn [Id In]; tauto. }
  apply Hr in Hin. unfold int_range.
  apply andb_true_iff. split; [apply Z.leb_le | apply Z.ltb_lt]; lia.
Qed.

Lemma encode_element_reference (e : Encoder) (w : WireType) :
  fst (encode_element e w)
  = mkEncoder (e_count e + Z.of_nat (length (element_call w)))
      (e_body e ++ flat_map call_bytes (element_call w))
      (e_msg_id e) (e_closed e).
Proof.
  destruct e as [n body id closed].
  destruct w; cbn; unfold add_element; cbn;
    rewrite ?app_nil_r, ?Z.add_0_r; reflexivity.
Qed.

Lemma Send_args_reference (e : Encoder) (args : list WireType) :
  Send_args e args
  = (mkEncoder (e_count e + Z.of_nat (length (flat_map element_call args)))
       (e_body e ++ flat_map call_bytes (flat_map element_call args))
       (e_msg_id e) (e_closed e),
     flat_map element_call args).
Proof.
  revert e. induction args as [|w args IH]; intros e.
  - destruct e. cbn. now rewrite app_nil_r, Z.add_0_r.
  - rewrite Send_args_cons, IH, encode_element_reference.
    cbn [fst snd e_count e_body e_msg_id e_closed flat_map].
    rewrite flat_map_app, length_app, Nat2Z.inj_add, <- !app_assoc.
    now rewrite Z.add_assoc.
Qed.

(** With the reference encoder on the loop-back transport [Send] always
    gets its message out. *)
Lemma Send_reference (q : Loopback) (msg_id : Z) (args : list WireType) :
  let cs := flat_map element_call args in
  let buf := message_bytes msg_id cs in
  Send (E := Encoder) q msg_id args
  = (q ++ [buf], to_size_t (Z.of_nat (length buf)),
     EOpen (Z.of_nat (length args))
       :: cs ++ [ESetMsgId msg_id; EClose; EGetBuffer; ETransportSend buf]).
Proof.
  intros cs buf. unfold Send.
  cbn [Open Encoder_EncoderT]. rewrite Send_args_reference.
  cbn [Close SetMsgId GetBuffer Encoder_EncoderT e_count e_body e_msg_id
       e_closed negb Transport_Send Loopback_TransportT app].
  fold cs. unfold buf, message_bytes.
  rewrite Z.add_0_l. rewrite <- !app_assoc. reflexivity.
Qed.

(** A receivable value costs one element call, which the format has room
    for and which the accumulator turns back into the value. *)
Lemma receivable_element (w : WireType) :
  receivable w = true ->
  exists c hc,
    element_call w = [c] /\ fits c = true /\ delivered c = [hc]
    /\ forall h, apply_call h hc = (RxHandler.push_back h w, true).
Proof.
  pose proof (Id_int_range w) as Hid.
  destruct w; cbn [receivable]; try discriminate; intros Hw;
    cbn [element_call Id GetAsBits] in *;
    eexists; eexists;
    (split; [reflexivity|]);
    cbn [fits delivered];
    repeat match goal with
    | H : (_ && _) = true |- _ =>
        let H1 := fresh in
        apply andb_true_iff in H; destruct H as [H H1]
    end;
    repeat match goal with
    | H : (_ <=? _) = true |- _ => apply Z.leb_le in H
    | H : (_ <? _) = true |- _ => apply Z.ltb_lt in H
    end.
  - (* int32 *)
    split; [assumption|]. split; [reflexivity|]. intros h.
    cbn [apply_call]. unfold RxHandler.OnWord. decide_tags.
    unfold WireType_of_int. do 3 f_equal. unfold to_int, to_uint.
    byte_arith.
  - (* uint32 *)
    split; [assumption|]. split; [reflexivity|]. intros h.
    cbn [apply_call]. unfold RxHandler.OnWord. decide_tags.
    unfold WireType_of_uint. do 3 f_equal. unfold to_uint. byte_arith.
  - (* char8 *)
    split; [assumption|]. split; [reflexivity|]. intros h.
    cbn [apply_call]. unfold RxHandler.OnWord. decide_tags.
    unfold WireType_of_char. do 3 f_equal. unfold to_char, to_uint.
    byte_arith.
  - (* char16 *)
    split; [assumption|]. split; [reflexivity|]. intros h.
    cbn [apply_call]. unfold RxHandler.OnWord. decide_tags.
    unfold WireType_of_wchar. do 3 f_equal. unfold to_wchar, to_uint.
    byte_arith.
  - (* null string 8 *)
    split; [assumption|]. split; [reflexivity|]. intros h.
    cbn [apply_call]. unfold RxHandler.OnWord. decide_tags. reflexivity.
  - (* null string 16 *)
    split; [assumption|]. split; [reflexivity|]. intros h.
    cbn [apply_call]. unfold RxHandler.OnWord. decide_tags. reflexivity.
  - (* string 8 *)
    split.
    { rewrite Hid. apply Z.ltb_lt. assumption. }
    split; [reflexivity|]. intros h.
    cbn [apply_call]. unfold RxHandler.OnString8. decide_tags.
    unfold WireType_of_pchar. now rewrite c_str_no_terminator.
  - (* string 16 *)
    split.
    { rewrite Hid. cbn [andb]. apply andb_true_iff. split.
      - apply Z.ltb_lt. assumption.
      - assumption. }
    split; [reflexivity|]. intros h.
    cbn [apply_call]. unfold RxHandler.OnString16. decide_tags.
    unfold WireType_of_pwchar. now rewrite c_str_no_terminator.
  - (* byte array *)
    split.
    { rewrite Hid. apply Z.ltb_lt. assumption. }
    split; [reflexivity|]. intros h.
    cbn [apply_call]. unfold RxHandler.OnString8. decide_tags. reflexivity.
Qed.

End ReferenceFacts.

Section SendClaims.
Context {size_t : SizeT} {tags : WireTypeIds}.
Context {T E : Type} {transport : TransportT T} {enc : EncoderT E}.

(** C9.  An argument [AddMsgElement] answers [false] for is passed over:
    the loop of [Send] goes on with the next argument as if nothing had
    happened.  For the tag [TYPE_NONE] no encoder call is made at all, so
    the encoder sees the same calls as for the list without that argument;
    and with the reference encoder on the loop-back transport the two
    sends put the same message on the transport and return the same byte
    count: fewer arguments than supplied, and no error. *)
Theorem Send_skips_rejected_argument :
  (forall (encoder encoder' : E) (w : WireType) (c : list TxCall)
          (rest : list WireType),
     AddMsgElement encoder w = (encoder', false, c) ->
     Send_args encoder (w :: rest)
     = (fst (Send_args encoder' rest), c ++ snd (Send_args encoder' rest)))
  /\ (forall (encoder : E) (l1 l2 : list WireType),
        AddMsgElement encoder WNone = (encoder, false, [])
        /\ Send_args encoder (l1 ++ WNone :: l2)
           = Send_args encoder (l1 ++ l2))
  /\ (forall (q : Loopback) (msg_id : Z) (l1 l2 : list WireType),
        fst (Send (E := Encoder) q msg_id (l1 ++ WNone :: l2))
        = fst (Send (E := Encoder) q msg_id (l1 ++ l2))
        /\ exists buf,
             fst (Send (E := Encoder) q msg_id (l1 ++ WNone :: l2))
             = (q ++ [buf], to_size_t (Z.of_nat (length buf)))).
Proof.
  split; [|split].
  - intros encoder encoder' w c rest Hadd. cbn [Send_args].
    rewrite Hadd. now destruct (Send_args encoder' rest).
  - intros encoder l1 l2. split.
    + rewrite AddMsgElement_by_variant. reflexivity.
    + rewrite !(Send_args_app encoder l1), Send_args_cons. reflexivity.
  - intros q msg_id l1 l2.
    assert (Hcalls : flat_map element_call (l1 ++ WNone :: l2)
                     = flat_map element_call (l1 ++ l2)).
    { now rewrite !flat_map_app. }
    pose proof (Send_reference q msg_id (l1 ++ WNone :: l2)) as H1.
    pose proof (Send_reference q msg_id (l1 ++ l2)) as H2.
    cbv zeta in H1, H2. rewrite H1, H2, Hcalls. cbn [fst].
    split; [reflexivity|]. eexists. reflexivity.
Qed.

(** C5 (as amended).  [Send] has two sentinels of its own, both values of
    [size_t] and so not negative: [(size_t)-1], one below [2 ^ size_bits],
    when the encoder's [Close] fails, and [(size_t)-2] when [GetBuffer]
    yields the null buffer.  The two differ.  In every other case [Send]
    returns what the transport's [Send] returned, converted to [size_t]
    and otherwise as it is. *)
Theorem Send_result_sentinels (transport_ : T) (msg_id : Z)
  (args : list WireType) :
  let encoder := encoder_before_close msg_id args in
  (snd (Close encoder) = false ->
     fst (Send transport_ msg_id args) = (transport_, 2 ^ size_bits - 1))
  /\ (snd (Close encoder) = true ->
      GetBuffer (fst (Close encoder)) = None ->
      fst (Send transport_ msg_id args) = (transport_, 2 ^ size_bits - 2))
  /\ (snd (Close encoder) = true ->
      forall buf, GetBuffer (fst (Close encoder)) = Some buf ->
      fst (Send transport_ msg_id args)
      = (fst (Transport_Send transport_ buf),
         to_size_t (snd (Transport_Send transport_ buf))))
  /\ 2 ^ size_bits - 1 <> 2 ^ size_bits - 2
  /\ 0 <= 2 ^ size_bits - 2.
Proof.
  intros encoder. subst encoder. unfold encoder_before_close, Send.
  destruct (Open Encoder_new (Z.of_nat (length args))) as [e0 opened].
  cbn [fst].
  destruct (Send_args e0 args) as [e1 cs]. cbn [fst].
  destruct (Close (SetMsgId e1 msg_id)) as [e2 closed]. cbn [fst snd].
  pose proof size_max_big.
  repeat split; try lia.
  - intros ->. cbn. now rewrite (to_size_t_neg 1) by lia.
  - intros -> Hb. rewrite Hb. cbn. now rewrite (to_size_t_neg 2) by lia.
  - intros -> buf Hb. rewrite Hb. cbn [negb].
    now destruct (Transport_Send transport_ buf).
Qed.

End SendClaims.


(** ** Round trip *)

Section RoundTrip.
Context {size_t : SizeT} {tags : WireTypeIds}.
Context {P : Type} {disp : DispatchT Loopback P}.

Lemma receivable_calls (args : list WireType) :
  forallb receivable args = true ->
  forallb fits (flat_map element_call args) = true
  /\ length (flat_map element_call args) = length args.
Proof.
  induction args as [|w args IH]; cbn [forallb flat_map];
    [split; reflexivity|].
  intros Hr. apply andb_true_iff in Hr. destruct Hr as [Hw Hr].
  destruct (receivable_element w Hw) as [c [hc [Hc [Hf _]]]].
  destruct (IH Hr) as [IHf IHl]. rewrite Hc. cbn [app forallb length].
  rewrite Hf, IHf, IHl. split; reflexivity.
Qed.

(** Fed with what the encoder was given, the accumulator rebuilds the
    arguments, and the decoder ends with success. *)
Lemma feed_receivable (args : list WireType) (h : RxHandler.t) :
  forallb receivable args = true ->
  run_callbacks (feed (flat_map delivered (flat_map element_call args))) h
  = (mkDecoder true, false,
     RxHandler.mk (RxHandler.list_ h ++ args) (RxHandler.msg_id_ h),
     flat_map delivered (flat_map element_call args)).
Proof.
  revert h. induction args as [|w args IH]; intros h;
    cbn [forallb flat_map].
  - intros _. destruct h. cbn. now rewrite app_nil_r.
  - intros Hr. apply andb_true_iff in Hr. destruct Hr as [Hw Hr].
    destruct (receivable_element w Hw) as [c [hc [Hc [_ [Hd Ha]]]]].
    rewrite Hc. cbn [app flat_map]. rewrite Hd. cbn [app feed run_callbacks].
    rewrite Ha, (IH _ Hr).
    cbn [RxHandler.push_back RxHandler.list_ RxHandler.msg_id_].
    now rewrite <- app_assoc.
Qed.

(** The loop of [Receive] over one message of the reference encoder. *)
Lemma Receive_loop_reference (fuel : nat) (msg_id : Z) (args : list WireType)
  (q : Loopback) :
  int_range msg_id = true ->
  Z.of_nat (length args) < 2 ^ 32 ->
  forallb receivable args = true ->
  let cs := flat_map element_call args in
  Receive_loop (D := Decoder) (S fuel) (message_bytes msg_id cs :: q)
    Decoder_new RxHandler.init
  = Some (q, mkDecoder true, RxHandler.mk args msg_id,
          HOnMessageStart msg_id (Z.of_nat (length args))
            :: flat_map delivered cs).
Proof.
  intros Hid Hlen Hr cs.
  destruct (receivable_calls args Hr) as [Hf Hl].
  cbn [Receive_loop Transport_Receive Loopback_TransportT OnData
       Decoder_DecoderT].
  unfold cs. rewrite parse_message_bytes; [|assumption|rewrite Hl; lia|assumption].
  rewrite Hl.
  cbn [feed run_callbacks apply_call RxHandler.OnMessageStart].
  fold cs. unfold cs. rewrite (feed_receivable args _ Hr).
  reflexivity.
Qed.

(** C1 (as amended).  For every message id (an [int]) and every list of
    at most [kMaxNumArgs] arguments of the nine tags the accumulator has a
    callback case for -- int32, uint32, char8, char16, the two null
    strings, string8, byte array, string16 -- [Send] through the reference
    encoder puts one buffer on the transport, and [Receive] through the
    reference decoder resolves the handler of that message id and calls
    its [OnMsgIn] with the same id, the same arguments in the same order
    and their count. *)
Theorem Send_Receive_roundtrip (msg_id : Z) (args : list WireType) (top : P)
  (fuel : nat) :
  int_range msg_id = true ->
  Z.of_nat (length args) <= kMaxNumArgs ->
  forallb receivable args = true ->
  exists buf : list Z,
    fst (Send (E := Encoder) ([] : Loopback) msg_id args)
    = ([buf], to_size_t (Z.of_nat (length buf)))
    /\ Receive (D := Decoder) (S fuel) [buf] top
       = match MsgHandler top msg_id with
         | None => Returns ([], 2 ^ size_bits - 3, [DMsgHandler msg_id])
         | Some dispatch =>
             let np := Z.of_nat (length args) in
             let '(t, r) := OnMsgIn dispatch msg_id [] args np in
             Returns (t, to_size_t r,
                      [DMsgHandler msg_id; DOnMsgIn msg_id args np])
         end.
Proof.
  intros Hid Hlen Hr. unfold kMaxNumArgs in Hlen.
  pose proof (Send_reference [] msg_id args) as HS. cbv zeta in HS.
  exists (message_bytes msg_id (flat_map element_call args)).
  rewrite HS. split; [reflexivity|].
  assert (Hlen' : Z.of_nat (length args) < 2 ^ 32) by lia.
  pose proof (Receive_loop_reference 0 msg_id args [] Hid Hlen' Hr) as HL.
  cbv zeta in HL.
  rewrite (Receive_after_loop 1 (S fuel) _ top _ _ _ _ HL) by lia.
  cbn [Success Decoder_DecoderT d_ok negb RxHandler.GetArgCount
       RxHandler.list_ RxHandler.MsgId RxHandler.msg_id_].
  match goal with
  | |- context [?a <? ?b] =>
      replace (a <? b) with false
        by (symmetry; apply Z.ltb_ge;
            unfold kMaxNumArgs, RxHandler.GetArgCount; cbn; lia)
  end.
  unfold dispatch_message.
  destruct (MsgHandler top msg_id) as [p|].
  - now destruct (OnMsgIn p msg_id [] args (Z.of_nat (length args))).
  - now rewrite (to_size_t_neg 3) by lia.
Qed.

End RoundTrip.

Section SendWithoutCap.
Context {size_t : SizeT} {tags : WireTypeIds}.
Context {T E P : Type} {transport : TransportT T} {enc : EncoderT E}.
Context {disp : DispatchT Loopback P}.

(** C8.  [Send] has no cap on the number of arguments: for every argument
    list, of whatever length, it opens the encoder for that many arguments
    and then makes the element call of every argument, in order, before
    [SetMsgId] and [Close]; when no argument has the tag [TYPE_NONE] these
    are as many element calls as there are arguments.  The cap is the
    business of [Receive]: a message of more than [kMaxNumArgs] receivable
    arguments goes out through the reference encoder like any other, and
    [Receive] through the reference decoder answers it with
    [(size_t)-2]. *)
Theorem Send_has_no_argument_cap :
  (forall (transport_ : T) (msg_id : Z) (args : list WireType),
     exists tail : list TxCall,
       snd (Send (E := E) transport_ msg_id args)
       = EOpen (Z.of_nat (length args)) :: flat_map element_call args
           ++ ESetMsgId msg_id :: EClose :: tail)
  /\ (forall args : list WireType,
        Forall (fun w => Id w <> TYPE_NONE) args ->
        length (flat_map element_call args) = length args)
  /\ (forall (msg_id : Z) (args : list WireType) (top : P) (fuel : nat),
        int_range msg_id = true ->
        kMaxNumArgs < Z.of_nat (length args) < 2 ^ 32 ->
        forallb receivable args = true ->
        exists buf : list Z,
          fst (Send (E := Encoder) ([] : Loopback) msg_id args)
          = ([buf], to_size_t (Z.of_nat (length buf)))
          /\ Receive (D := Decoder) (S fuel) [buf] top
             = Returns ([], 2 ^ size_bits - 2, [])).
Proof.
  split; [|split].
  - intros transport_ msg_id args.
    destruct (Send_calls transport_ msg_id args) as [tail [Hc _]].
    now exists tail.
  - induction 1 as [|w l Hw Hl IH]; [reflexivity|].
    cbn [flat_map]. rewrite length_app, IH, element_call_length.
    apply Z.eqb_neq in Hw. now rewrite Hw.
  - intros msg_id args top fuel Hid Hlen Hr.
    pose proof (Send_reference [] msg_id args) as HS. cbv zeta in HS.
    exists (message_bytes msg_id (flat_map element_call args)).
    rewrite HS. split; [reflexivity|].
    pose proof (Receive_loop_reference 0 msg_id args [] Hid (proj2 Hlen) Hr)
      as HL.
    cbv zeta in HL.
    rewrite (Receive_after_loop 1 (S fuel) _ top _ _ _ _ HL) by lia.
    cbn [Success Decoder_DecoderT d_ok negb].
    match goal with
    | |- context [?a <? ?b] =>
        replace (a <? b) with true
          by (symmetry; apply Z.ltb_lt;
              unfold RxHandler.GetArgCount; cbn; lia)
    end.
    now rewrite (to_size_t_neg 2) by lia.
Qed.

End SendWithoutCap.

(** ** The channel at work *)

Section Runs.
#[local] Existing Instance size_t32.

(** The scenario of the spec: message 7 with [int32(42)] and
    [string8("ping")]. *)
Example scenario_ping :
  let args := [WInt32 42; WString8 [112; 105; 110; 103]] in
  let '(q, sent, calls) := Send (E := Encoder) ([] : Loopback) 7 args in
  calls = [EOpen 2; EOnWord 42 TYPE_INT32;
           EOnString8 [112; 105; 110; 103] TYPE_STRING8;
           ESetMsgId 7; EClose; EGetBuffer;
           ETransportSend
             [7; 0; 0; 0; 2; 0; 0; 0; 0; 1; 0; 0; 0; 42; 0; 0; 0;
              1; 7; 0; 0; 0; 4; 0; 0; 0; 112; 105; 110; 103]]
  /\ sent = 30
  /\ Receive (D := Decoder) 1 q (mkTable [7])
     = Returns ([], 2, [DMsgHandler 7; DOnMsgIn 7 args 2]).
Proof. vm_compute. repeat split. Qed.

(** C1, counterexample.  One argument of tag unix-fd, message id 7 with a
    handler: the message goes out, the decoder hands the word to [OnWord],
    which has no case for the tag, and [Receive] returns [(size_t)-1]
    without calling the handler.  One argument of tag none: the handler is
    called with no argument at all. *)
Lemma roundtrip_loses_unix_fd_and_none :
  (let '(q, sent, _) := Send (E := Encoder) ([] : Loopback) 7 [WUnixFd 3] in
   sent = 17
   /\ Receive (D := Decoder) 1 q (mkTable [7])
      = Returns ([], 2 ^ 32 - 1, []))
  /\ (let '(q, sent, _) := Send (E := Encoder) ([] : Loopback) 7 [WNone] in
      sent = 8
      /\ Receive (D := Decoder) 1 q (mkTable [7])
         = Returns ([], 0, [DMsgHandler 7; DOnMsgIn 7 [] 0])).
Proof. vm_compute. repeat split. Qed.

(** C2, the run that shows the defect.  With the reference encoder the
    first of two arguments has tag none: [AddMsgElement] answers [false],
    and [Send] still encodes the second argument, closes, fetches the
    buffer, sends it and returns the byte count.  With an encoder whose
    [Open] and [OnWord] answer [false], [Send] still goes through
    [SetMsgId], [Close], [GetBuffer] and the transport and returns the
    transport's result. *)
Theorem Send_goes_on_after_failure :
  snd (fst (AddMsgElement (E := Encoder) Encoder_new WNone)) = false
  /\ Send (E := Encoder) ([] : Loopback) 7 [WNone; WInt32 42]
     = ([[7; 0; 0; 0; 1; 0; 0; 0; 0; 1; 0; 0; 0; 42; 0; 0; 0]], 17,
        [EOpen 2; EOnWord 42 TYPE_INT32; ESetMsgId 7; EClose; EGetBuffer;
         ETransportSend
           [7; 0; 0; 0; 1; 0; 0; 0; 0; 1; 0; 0; 0; 42; 0; 0; 0]])
  /\ snd (Open (EncoderT := Refusing) tt 1) = false
  /\ snd (fst (AddMsgElement (enc := Refusing) tt (WInt32 42))) = false
  /\ Send (enc := Refusing) ([] : Loopback) 7 [WInt32 42]
     = ([[]], 0,
        [EOpen 1; EOnWord 42 TYPE_INT32; ESetMsgId 7; EClose; EGetBuffer;
         ETransportSend []]).
Proof. vm_compute. repeat split. Qed.

(** C5, counterexample.  The encoder rejects the tag of the one argument
    ([AddMsgElement] answers [false]); [Send] returns 0, the byte count of
    the transport, which is also what it returns for the same message
    without the argument: no sentinel for this failure.  And the sentinel
    for the missing buffer is not negative: it is [2 ^ 32 - 2] where
    [size_t] has 32 bits. *)
Lemma Send_rejected_tag_has_no_sentinel :
  snd (fst (AddMsgElement (enc := RejectingElements) tt (WInt32 42))) = false
  /\ snd (fst (Send (enc := RejectingElements) ([] : Loopback) 7
                 [WInt32 42])) = 0
  /\ fst (Send (enc := RejectingElements) ([] : Loopback) 7 [WInt32 42])
     = fst (Send (enc := RejectingElements) ([] : Loopback) 7 [])
  /\ snd (fst (Send (enc := WithoutBuffer) ([] : Loopback) 7 [WInt32 42]))
     = 4294967294.
Proof. vm_compute. repeat split. Qed.

(** C6, counterexample.  After one argument has been accumulated the
    count is 1 and [GetArg(1)] is an access outside the vector. *)
Lemma GetArg_beyond_count :
  let h := fst (RxHandler.OnWord RxHandler.init 42 TYPE_INT32) in
  RxHandler.GetArgCount h = 1%nat
  /\ RxHandler.GetArg h 0 = Some (WInt32 42)
  /\ RxHandler.GetArg h 1 = None.
Proof. vm_compute. repeat split. Qed.

(** The theorems above at concrete inputs. *)

Lemma Send_Receive_roundtrip_witness :
  exists buf : list Z,
    fst (Send (E := Encoder) ([] : Loopback) 7
           [WInt32 42; WString8 [112; 105; 110; 103]])
    = ([buf], to_size_t (Z.of_nat (length buf)))
    /\ Receive (D := Decoder) 1 [buf] (mkTable [7])
       = Returns ([], 2,
                  [DMsgHandler 7;
                   DOnMsgIn 7 [WInt32 42; WString8 [112; 105; 110; 103]] 2]).
Proof.
  exact (Send_Receive_roundtrip 7 [WInt32 42; WString8 [112; 105; 110; 103]]
           (mkTable [7]) 0 eq_refl (Zle_bool_imp_le 2 8 eq_refl) eq_refl).
Defined.

Lemma Receive_rejects_over_cap_witness :
  Receive (D := Decoder) 1
    (fst (fst (Send (E := Encoder) ([] : Loopback) 7 (repeat (WInt32 1) 9))))
    (mkTable [7])
  = Returns ([], 2 ^ 32 - 2, []).
Proof.
  exact (Receive_rejects_over_cap (size_t := size_t32) 1 1
           (fst (fst (Send (E := Encoder) ([] : Loopback) 7
                        (repeat (WInt32 1) 9))))
           (mkTable [7]) [] (mkDecoder true)
           (RxHandler.mk (repeat (WInt32 1) 9) 7)
           (HOnMessageStart 7 9 :: repeat (HOnWord 1 TYPE_INT32) 9)
           eq_refl (le_n 1) eq_refl eq_refl).
Defined.

Lemma Receive_failure_paths_witness :
  Receive (D := Decoder) 1 ([] : Loopback) (mkTable [7])
  = Returns ([], 2 ^ 32 - 1, []).
Proof.
  exact (proj1 (Receive_failure_paths (size_t := size_t32) 1 1
                  ([] : Loopback) (mkTable [7]) []
                  (mkDecoder false) RxHandler.init [] eq_refl (le_n 1))
           eq_refl).
Defined.

Lemma Receive_dispatches_initial_id_witness :
  RxHandler.GetArgCount RxHandler.init = 0%nat
  /\ Receive (dec := Silent) 1 ([] : Loopback) (mkTable [-1])
     = Returns ([], 0, [DMsgHandler (-1); DOnMsgIn (-1) [] 0]).
Proof.
  exact (proj2 (proj2 (Receive_dispatches_initial_id (size_t := size_t32)
                         (dec := Silent) 1 1
                         ([] : Loopback) (mkTable [-1]) [] tt RxHandler.init
                         [] eq_refl (le_n 1) eq_refl eq_refl))
           eq_refl).
Defined.

Lemma OnWord_appends_one_or_rejects_witness :
  (exists w : WireType,
     Id w = TYPE_INT32
     /\ RxHandler.OnWord RxHandler.init 42 TYPE_INT32
        = (RxHandler.mk ([] ++ [w]) (-1), true))
  /\ RxHandler.OnWord RxHandler.init 42 TYPE_STRING8
     = (RxHandler.init, false).
Proof.
  split.
  - apply (proj1 (OnWord_appends_one_or_rejects RxHandler.init 42 TYPE_INT32)).
    simpl. tauto.
  - apply (proj2 (OnWord_appends_one_or_rejects RxHandler.init 42
                    TYPE_STRING8)).
    simpl. intuition discriminate.
Defined.

Lemma Send_result_sentinels_witness :
  fst (Send (enc := FailingClose) ([] : Loopback) 7 [WInt32 42])
  = ([], 2 ^ 32 - 1)
  /\ fst (Send (enc := WithoutBuffer) ([] : Loopback) 7 [WInt32 42])
     = ([], 2 ^ 32 - 2).
Proof.
  split.
  - exact (proj1 (Send_result_sentinels (size_t := size_t32)
                    (enc := FailingClose) ([] : Loopback) 7 [WInt32 42])
             eq_refl).
  - exact (proj1 (proj2 (Send_result_sentinels (size_t := size_t32)
                           (enc := WithoutBuffer) ([] : Loopback) 7
                           [WInt32 42])) eq_refl eq_refl).
Defined.

Lemma Send_has_no_argument_cap_witness :
  length (flat_map element_call (repeat (WInt32 1) 9)) = 9%nat
  /\ exists buf : list Z,
       fst (Send (E := Encoder) ([] : Loopback) 7 (repeat (WInt32 1) 9))
       = ([buf], to_size_t (Z.of_nat (length buf)))
       /\ Receive (D := Decoder) 1 [buf] (mkTable [7])
          = Returns ([], 2 ^ 32 - 2, []).
Proof.
  split.
  - apply (proj1 (proj2 (Send_has_no_argument_cap (T := Loopback)
                           (E := Encoder) (P := Table)))).
    repeat constructor; discriminate.
  - exact (proj2 (proj2 (Send_has_no_argument_cap (size_t := size_t32)
                           (T := Loopback) (E := Encoder) (P := Table)))
             7 (repeat (WInt32 1) 9) (mkTable [7]) 0%nat
             eq_refl (conj eq_refl eq_refl) eq_refl).
Defined.

Lemma Send_skips_rejected_argument_witness :
  Send_args (enc := RejectingElements) tt [WInt32 42; WInt32 43]
  = (tt, [EOnWord 42 TYPE_INT32; EOnWord 43 TYPE_INT32]).
Proof.
  exact (proj1 (Send_skips_rejected_argument (enc := RejectingElements))
           tt tt (WInt32 42) [EOnWord 42 TYPE_INT32] [WInt32 43] eq_refl).
Defined.

Lemma GetArg_defined_below_count_witness :
  (exists w, RxHandler.GetArg (RxHandler.mk [WInt32 42] 7) 0 = Some w)
  /\ RxHandler.GetArg (RxHandler.mk [WInt32 42] 7) 1 = None.
Proof.
  split.
  - exact (proj1 (proj1 (GetArg_defined_below_count (size_t := size_t32)
                           (T := Loopback) (D := Decoder) (P := Table))
                    (RxHandler.mk [WInt32 42] 7) 0%nat) (le_n 1)).
  - exact (proj1 (proj1 (proj2 (GetArg_defined_below_count
                                  (size_t := size_t32) (T := Loopback)
                                  (D := Decoder) (P := Table)))
                    (RxHandler.mk [WInt32 42] 7) 1%nat) (le_n 1)).
Defined.

End Runs.

(* ================================================================== *)
(** * More on the accumulator *)

Section Accumulator.
Context {tags : WireTypeIds}.

Lemma existsb_word_tags (type_id : Z) :
  existsb (Z.eqb type_id) word_tags = true <-> In type_id word_tags.
Proof.
  rewrite existsb_exists. split.
  - intros [x [Hin Hx]]. apply Z.eqb_eq in Hx. now subst.
  - intros Hin. exists type_id. split; [assumption | apply Z.eqb_refl].
Qed.

(** What one callback does to the accumulator. *)
Lemma apply_call_effect (h : RxHandler.t) (c : HandlerCall) :
  RxHandler.list_ (fst (apply_call h c))
  = RxHandler.list_ h ++ accepted_value c
  /\ RxHandler.msg_id_ (fst (apply_call h c))
     = last_message_id [c] (RxHandler.msg_id_ h).
Proof.
  destruct c as [id n|bits type_id|str type_id|str type_id];
    cbn [apply_call accepted_value last_message_id fold_left].
  - cbn. now rewrite app_nil_r.
  - destruct (existsb (Z.eqb type_id) word_tags) eqn:E.
    + apply existsb_word_tags in E. rewrite (OnWord_accepts h _ _ E).
      split; reflexivity.
    + assert (Hn : ~ In type_id word_tags).
      { intros Hin. apply existsb_word_tags in Hin. congruence. }
      rewrite (OnWord_rejects h bits _ Hn). cbn. now rewrite app_nil_r.
  - unfold RxHandler.OnString8.
    destruct (type_id =? TYPE_STRING8); [split; reflexivity|].
    destruct (type_id =? TYPE_BARRAY); [split; reflexivity|].
    cbn. now rewrite app_nil_r.
  - unfold RxHandler.OnString16.
    destruct (type_id =? TYPE_STRING16); [split; reflexivity|].
    cbn. now rewrite app_nil_r.
Qed.

Lemma RxHandler_accumulates_in_order_aux (h : RxHandler.t)
  (calls : list HandlerCall) :
  RxHandler.list_ (apply_calls h calls)
  = RxHandler.list_ h ++ flat_map accepted_value calls
  /\ RxHandler.MsgId (apply_calls h calls)
     = last_message_id calls (RxHandler.MsgId h).
Proof.
  unfold apply_calls, RxHandler.MsgId, last_message_id. revert h.
  induction calls as [|c calls IH]; intros h; cbn [fold_left flat_map].
  - now rewrite app_nil_r.
  - destruct (apply_call_effect h c) as [Hl Hm].
    destruct (IH (fst (apply_call h c))) as [IHl IHm].
    rewrite IHl, IHm, Hl, Hm. split.
    + now rewrite app_assoc.
    + reflexivity.
Qed.


(** The string a constructor from a pointer sees: the longest prefix
    without a terminator. *)
Lemma c_str_prefix (s : list Z) :
  (exists rest, s = c_str s ++ rest
                /\ (rest = [] \/ exists r, rest = 0 :: r))
  /\ ~ In 0 (c_str s).
Proof.
  induction s as [|c s [[rest [Hs Hrest]] Hno]]; cbn [c_str].
  - split; [exists []; split; [reflexivity | now left] | intros []].
  - destruct (Z.eqb_spec c 0) as [->|Hc].
    + split; [|intros []].
      exists (0 :: s). split; [reflexivity | right; now exists s].
    + split.
      * exists rest. split; [cbn; now rewrite <- Hs | assumption].
      * intros [H0|Hin]; [now apply Hc | now apply Hno].
Qed.

(** X2.  The two string callbacks build a C string: of the units they are
    given, the value keeps those before the first zero unit and nothing
    after it (a string without a zero unit is kept whole).  A byte array
    is kept whole, zeros and all. *)
Theorem string_callbacks_stop_at_terminator (h : RxHandler.t)
  (str : list Z) :
  RxHandler.OnString8 h str TYPE_STRING8
  = (RxHandler.push_back h (WString8 (c_str str)), true)
  /\ RxHandler.OnString16 h str TYPE_STRING16
     = (RxHandler.push_back h (WString16 (c_str str)), true)
  /\ RxHandler.OnString8 h str TYPE_BARRAY
     = (RxHandler.push_back h (WByteArray str), true)
  /\ (exists rest, str = c_str str ++ rest
                   /\ (rest = [] \/ exists r, rest = 0 :: r))
  /\ ~ In 0 (c_str str)
  /\ (~ In 0 str -> c_str str = str).
Proof.
  destruct (c_str_prefix str) as [Hp Hno].
  repeat split; try assumption.
  - unfold RxHandler.OnString8. now rewrite Z.eqb_refl.
  - unfold RxHandler.OnString16. now rewrite Z.eqb_refl.
  - unfold RxHandler.OnString8. decide_tags. reflexivity.
  - intros Hstr. apply c_str_no_terminator. apply forallb_forall.
    intros c Hin. apply negb_true_iff. apply Z.eqb_neq.
    intros ->. now apply Hstr.
Qed.

(** A tag equation between two different tag constants is absurd. *)
Ltac absurd_tags :=
  match goal with
  | H : @eq Z ?a ?b |- _ =>
      let i := tag_index a in
      let j := tag_index b in
      exfalso; apply Z.eqb_eq in H; revert H; decide_tags; discriminate
  end.

(** X3.  Every tag belongs to at most one callback: [OnWord] takes the six
    word tags, [OnString8] takes [TYPE_STRING8] and [TYPE_BARRAY],
    [OnString16] takes [TYPE_STRING16], whatever the payload and the state
    of the accumulator; a tag one callback takes is refused by the other
    two, and [TYPE_NONE], [TYPE_UNIX_FD] and [TYPE_WIN_HANDLE] are refused
    by all three. *)
Theorem callbacks_partition_the_tags (h : RxHandler.t) (bits : Z)
  (str8 str16 : list Z) (type_id : Z) :
  let word := snd (RxHandler.OnWord h bits type_id) in
  let s8 := snd (RxHandler.OnString8 h str8 type_id) in
  let s16 := snd (RxHandler.OnString16 h str16 type_id) in
  (word = true <-> In type_id word_tags)
  /\ (s8 = true <-> type_id = TYPE_STRING8 \/ type_id = TYPE_BARRAY)
  /\ (s16 = true <-> type_id = TYPE_STRING16)
  /\ word && s8 = false /\ word && s16 = false /\ s8 && s16 = false
  /\ (In type_id [TYPE_NONE; TYPE_UNIX_FD; TYPE_WIN_HANDLE] ->
      word = false /\ s8 = false /\ s16 = false).
Proof.
  intros word s8 s16.
  assert (Hw : word = true <-> In type_id word_tags).
  { subst word. split.
    - intros Hacc. destruct (in_dec Z.eq_dec type_id word_tags) as [|Hn];
        [assumption|].
      rewrite (OnWord_rejects h bits _ Hn) in Hacc. discriminate.
    - intros Hin. now rewrite (OnWord_accepts h bits _ Hin). }
  assert (H8 : s8 = true <-> type_id = TYPE_STRING8 \/ type_id = TYPE_BARRAY).
  { subst s8. unfold RxHandler.OnString8.
    destruct (Z.eqb_spec type_id TYPE_STRING8);
      [split; [now left | reflexivity]|].
    destruct (Z.eqb_spec type_id TYPE_BARRAY);
      [split; [now right | reflexivity]|].
    split; [discriminate | tauto]. }
  assert (H16 : s16 = true <-> type_id = TYPE_STRING16).
  { subst s16. unfold RxHandler.OnString16.
    destruct (Z.eqb_spec type_id TYPE_STRING16);
      [split; [intros _; assumption | reflexivity]|].
    split; [discriminate | tauto]. }
  split; [assumption|]. split; [assumption|]. split; [assumption|].
  unfold word_tags in Hw. cbn [In] in Hw.
  repeat split.
  - destruct word; [|reflexivity]. destruct s8; [|reflexivity].
    destruct (proj1 Hw eq_refl) as [<-|[<-|[<-|[<-|[<-|[<-|[]]]]]]];
      destruct (proj1 H8 eq_refl) as [H|H]; absurd_tags.
  - destruct word; [|reflexivity]. destruct s16; [|reflexivity].
    pose proof (proj1 H16 eq_refl) as H.
    destruct (proj1 Hw eq_refl) as [<-|[<-|[<-|[<-|[<-|[<-|[]]]]]]];
      absurd_tags.
  - destruct s8; [|reflexivity]. destruct s16; [|reflexivity].
    pose proof (proj1 H16 eq_refl) as H.
    destruct (proj1 H8 eq_refl) as [->| ->]; absurd_tags.
  - destruct word; [|reflexivity].
    destruct H as [<-|[<-|[<-|[]]]];
      destruct (proj1 Hw eq_refl) as [H|[H|[H|[H|[H|[H|[]]]]]]];
      absurd_tags.
  - destruct s8; [|reflexivity].
    destruct H as [<-|[<-|[<-|[]]]];
      destruct (proj1 H8 eq_refl) as [H|H]; absurd_tags.
  - destruct s16; [|reflexivity]. pose proof (proj1 H16 eq_refl) as H'.
    destruct H as [<-|[<-|[<-|[]]]]; absurd_tags.
Qed.

End Accumulator.

(* ================================================================== *)
(** * More on sending *)

Section Elements.
Context {size_t : SizeT} {tags : WireTypeIds}.
Context {T E : Type} {transport : TransportT T} {enc : EncoderT E}.

(** X4.  [AddMsgElement] reaches the case of the value's own tag: for a
    value of tag none it leaves the encoder alone and answers [false]; for
    every other value it makes exactly one encoder call -- [OnWord] for
    the four scalars and the two null strings, [OnString8] for a string
    and a byte array, [OnString16], [OnUnixFd], [OnWinHandle] -- with the
    value's payload and the value's own tag, and answers what the encoder
    answered. *)
Theorem AddMsgElement_makes_the_call_of_the_tag (encoder : E)
  (wtype : WireType) :
  AddMsgElement encoder wtype
  = (encode_element encoder wtype, element_call wtype)
  /\ (wtype = WNone -> AddMsgElement encoder wtype = (encoder, false, []))
  /\ (wtype <> WNone ->
      exists c, snd (AddMsgElement encoder wtype) = [c]
                /\ call_tag c = Some (Id wtype)).
Proof.
  rewrite AddMsgElement_by_variant. split; [reflexivity|]. split.
  - intros ->. reflexivity.
  - intros Hw. cbn [snd].
    destruct wtype; try congruence; eexists; split; reflexivity.
Qed.

Lemma element_call_not_transport (args : list WireType) :
  filter is_transport_send (flat_map element_call args) = [].
Proof.
  induction args as [|w args IH]; [reflexivity|].
  cbn [flat_map]. rewrite filter_app, IH, app_nil_r.
  destruct w; reflexivity.
Qed.

(** X8.  [Send] uses the transport at most once, and only for the buffer
    the encoder gave it after a successful [Close]: when [Close] fails or
    [GetBuffer] yields the null buffer, nothing is sent and the transport
    is left as it was. *)
Theorem Send_sends_only_a_closed_buffer (transport_ : T) (msg_id : Z)
  (args : list WireType) :
  let encoder := encoder_before_close msg_id args in
  let sends :=
    filter is_transport_send (snd (Send transport_ msg_id args)) in
  sends
  = (if snd (Close encoder)
     then match GetBuffer (fst (Close encoder)) with
          | Some buf => [ETransportSend buf]
          | None => []
          end
     else [])
  /\ (sends = [] -> fst (fst (Send transport_ msg_id args)) = transport_)
  /\ (forall buf, sends = [ETransportSend buf] ->
      fst (fst (Send transport_ msg_id args))
      = fst (Transport_Send transport_ buf)).
Proof.
  intros encoder sends. subst encoder sends.
  unfold encoder_before_close, Send.
  destruct (Open Encoder_new (Z.of_nat (length args))) as [e0 opened].
  cbn [fst].
  pose proof (Send_args_calls e0 args) as Hcs.
  destruct (Send_args e0 args) as [e1 cs]. cbn [fst snd] in *. subst cs.
  destruct (Close (SetMsgId e1 msg_id)) as [e2 closed]. cbn [fst snd].
  destruct closed; cbn [negb].
  - destruct (GetBuffer e2) as [buf|].
    + destruct (Transport_Send transport_ buf) as [t1 sent] eqn:Et.
      cbn [fst snd].
      repeat (rewrite ?filter_app; cbn [filter is_transport_send]).
      rewrite element_call_not_transport. cbn [app].
      split; [reflexivity|]. split; [discriminate|].
      intros buf' Hb. injection Hb as <-. now rewrite Et.
    + cbn [fst snd].
      repeat (rewrite ?filter_app; cbn [filter is_transport_send]).
      rewrite element_call_not_transport. cbn [app].
      repeat split. discriminate.
  - cbn [fst snd].
    repeat (rewrite ?filter_app; cbn [filter is_transport_send]).
    rewrite element_call_not_transport. cbn [app].
    repeat split. discriminate.
Qed.

(** X5.  The elements of the two directions fit, whatever the byte format
    in between: for a receivable value, the one encoder call of
    [AddMsgElement] has a handler callback of the same name, and that
    callback, given the very arguments of the encoder call, appends the
    value itself and answers [true].  And no callback at all builds a
    value of tag none, unix-fd or win-handle. *)
Theorem element_call_replayed_rebuilds_the_value (h : RxHandler.t)
  (w : WireType) :
  (receivable w = true ->
   exists c hc,
     element_call w = [c] /\ callback_of c = Some hc
     /\ apply_call h hc = (RxHandler.push_back h w, true))
  /\ (rx_variant w = false ->
      forall c : HandlerCall, ~ In w (accepted_value c)).
Proof.
  split.
  - destruct w; cbn [receivable]; try discriminate; intros Hw;
      cbn [element_call Id GetAsBits];
      eexists; eexists;
      (split; [reflexivity|]); (split; [reflexivity|]);
      repeat match goal with
      | H : (_ && _) = true |- _ =>
          let H1 := fresh in
          apply andb_true_iff in H; destruct H as [H H1]
      end;
      repeat match goal with
      | H : (_ <=? _) = true |- _ => apply Z.leb_le in H
      | H : (_ <? _) = true |- _ => apply Z.ltb_lt in H
      end;
      cbn [apply_call];
      unfold RxHandler.OnWord, RxHandler.OnString8, RxHandler.OnString16;
      decide_tags;
      unfold WireType_of_int, WireType_of_uint, WireType_of_char,
        WireType_of_wchar, WireType_of_pchar, WireType_of_pwchar,
        WireType_of_ByteArray;
      rewrite ?c_str_no_terminator by assumption;
      try reflexivity;
      do 3 f_equal; unfold to_int, to_uint, to_char, to_wchar; byte_arith.
  - intros Hw c Hin.
    assert (Hv : forallb rx_variant (accepted_value c) = true).
    { destruct c as [id n|bits type_id|str type_id|str type_id];
        cbn [accepted_value]; try reflexivity.
      - unfold word_value.
        repeat match goal with
        | |- context [if ?b then _ else _] => destruct b
        end; reflexivity.
      - repeat match goal with
        | |- context [if ?b then _ else _] => destruct b
        end; reflexivity.
      - destruct (type_id =? TYPE_STRING16); reflexivity. }
    rewrite forallb_forall in Hv. specialize (Hv w Hin). congruence.
Qed.

End Elements.

(* ================================================================== *)
(** * More on receiving *)

Section Receiving.
Context {size_t : SizeT} {tags : WireTypeIds}.
Context {T D P : Type}.
Context {transport : TransportT T} {dec : DecoderT D} {disp : DispatchT T P}.

Lemma apply_calls_app (h : RxHandler.t) (cs1 cs2 : list HandlerCall) :
  apply_calls h (cs1 ++ cs2) = apply_calls (apply_calls h cs1) cs2.
Proof. unfold apply_calls. apply fold_left_app. Qed.

(** The handler a decoder leaves behind is the handler after the calls
    it made. *)
Lemma run_callbacks_apply_calls {A : Type} (p : Callbacks A)
  (h : RxHandler.t) :
  snd (fst (run_callbacks p h)) = apply_calls h (snd (run_callbacks p h)).
Proof.
  revert h. induction p as [a|c k IH]; intros h; cbn [run_callbacks].
  - reflexivity.
  - destruct (apply_call h c) as [h1 ok] eqn:Ec. specialize (IH ok h1).
    destruct (run_callbacks (k ok) h1) as [[a h2] calls].
    cbn [fst snd] in *. rewrite IH. unfold apply_calls.
    cbn [fold_left]. now rewrite Ec.
Qed.

Lemma Receive_loop_apply_calls (fuel : nat) t (d : D) h t' d' h' calls :
  Receive_loop fuel t d h = Some (t', d', h', calls) ->
  h' = apply_calls h calls.
Proof.
  revert t d h t' d' h' calls.
  induction fuel as [|fuel IH]; intros t d h t' d' h' calls Hloop;
    simpl in Hloop; [discriminate|].
  destruct (Transport_Receive t) as [t1 buf].
  pose proof (run_callbacks_apply_calls (OnData d buf) h) as Hrun.
  destruct (run_callbacks (OnData d buf) h) as [[[d1 more] h1] calls1].
  cbn [fst snd] in Hrun. destruct more.
  - destruct (Receive_loop fuel t1 d1 h1) as [[[[t2 d2] h2] calls2]|] eqn:E;
      [|discriminate].
    injection Hloop as <- <- <- <-.
    rewrite apply_calls_app, <- Hrun. exact (IH _ _ _ _ _ _ _ E).
  - now injection Hloop as <- <- <- <-.
Qed.

(** X6.  What [Receive] does with a message, for any decoder: once the
    loop has ended with success, the arguments are the values of the
    callbacks that had a case for their tag, in the order the decoder
    made them, and the message id is that of the last [OnMessageStart]
    (-1 without one).  With at most [kMaxNumArgs] of them [Receive] asks
    [MsgHandler] for that id once and, given a handler, calls its
    [OnMsgIn] once with the id, the arguments and their count, and
    returns its result as a [size_t] together with the transport as the
    handler left it; with more it returns [(size_t)-2] and calls
    nothing. *)
Theorem Receive_dispatches_the_accepted_values (fuel fuel' : nat) t
  (top : P) t' (d : D) h calls :
  Receive_loop fuel t Decoder_new RxHandler.init = Some (t', d, h, calls) ->
  (fuel <= fuel')%nat ->
  Success d = true ->
  let args := flat_map accepted_value calls in
  let np := Z.of_nat (length args) in
  let id := last_message_id calls (-1) in
  (np <= kMaxNumArgs ->
   Receive fuel' t top
   = match MsgHandler top id with
     | None => Returns (t', 2 ^ size_bits - 3, [DMsgHandler id])
     | Some dispatch =>
         let '(t'', r) := OnMsgIn dispatch id t' args np in
         Returns (t'', to_size_t r, [DMsgHandler id; DOnMsgIn id args np])
     end)
  /\ (kMaxNumArgs < np ->
      Receive fuel' t top = Returns (t', 2 ^ size_bits - 2, [])).
Proof.
  intros Hloop Hle Hok args np id.
  pose proof (Receive_loop_apply_calls _ _ _ _ _ _ _ _ Hloop) as Hh.
  destruct (RxHandler_accumulates_in_order_aux RxHandler.init calls)
    as [Hl Hm].
  rewrite <- Hh in Hl, Hm. cbn [RxHandler.init RxHandler.list_ app] in Hl.
  change (RxHandler.MsgId RxHandler.init) with (-1) in Hm.
  pose proof (Receive_after_loop _ _ _ top _ _ _ _ Hloop Hle) as HR.
  rewrite Hok in HR. cbn [negb] in HR.
  unfold RxHandler.GetArgCount in HR. rewrite Hl, Hm in HR.
  fold args in HR. fold np in HR. fold id in HR.
  split.
  - intros Hcap. apply Z.ltb_ge in Hcap. rewrite HR, Hcap.
    unfold dispatch_message. fold np.
    destruct (MsgHandler top id) as [p|].
    + now destruct (OnMsgIn p id t' args np).
    + now rewrite (to_size_t_neg 3) by lia.
  - intros Hcap. apply Z.ltb_lt in Hcap. rewrite HR, Hcap.
    now rewrite (to_size_t_neg 2) by lia.
Qed.

Lemma Receive_loop_wants_more (fuel : nat) t (d : D) h :
  (forall d buf h,
     snd (fst (fst (run_callbacks (OnData d buf) h))) = true) ->
  Receive_loop fuel t d h = None.
Proof.
  intros Hmore. revert t d h.
  induction fuel as [|fuel IH]; intros t d h; cbn [Receive_loop];
    [reflexivity|].
  destruct (Transport_Receive t) as [t1 buf].
  specialize (Hmore d buf h).
  destruct (run_callbacks (OnData d buf) h) as [[[d1 more] h1] calls].
  cbn [fst snd] in Hmore. subst more. now rewrite IH.
Qed.

(** X7.  [Receive] has no way out of its loop but the decoder: it hands
    every buffer of the transport to [OnData], the null buffer as well,
    and reads again as long as [OnData] answers [true].  With a decoder
    that always asks for more it never returns, and never gets to the
    dispatch, whatever the transport delivers. *)
Theorem Receive_loops_while_the_decoder_wants_more (t : T) (top : P) :
  (forall d buf h,
     snd (fst (fst (run_callbacks (OnData (DecoderT := dec) d buf) h)))
     = true) ->
  forall fuel : nat, Receive (D := D) fuel t top = OutOfFuel.
Proof.
  intros Hmore fuel. unfold Receive.
  now rewrite (Receive_loop_wants_more fuel t Decoder_new RxHandler.init).
Qed.

End Receiving.

Section InOrder.
Context {size_t : SizeT} {tags : WireTypeIds}.
Context {P : Type} {disp : DispatchT Loopback P}.

(** X9.  Messages keep their order: two messages sent one after the other
    through the reference encoder lie on the transport as two buffers;
    the first [Receive] takes the first buffer only and dispatches the
    first message, leaving the second buffer for the next [Receive], which
    dispatches the second message. *)
Theorem two_messages_arrive_in_order (id1 id2 : Z)
  (args1 args2 : list WireType) (top : P) (fuel : nat) :
  int_range id1 = true -> int_range id2 = true ->
  Z.of_nat (length args1) <= kMaxNumArgs ->
  Z.of_nat (length args2) <= kMaxNumArgs ->
  forallb receivable args1 = true -> forallb receivable args2 = true ->
  exists buf1 buf2 : list Z,
    fst (fst (Send (E := Encoder) ([] : Loopback) id1 args1)) = [buf1]
    /\ fst (fst (Send (E := Encoder) ([buf1] : Loopback) id2 args2))
       = [buf1; buf2]
    /\ Receive (D := Decoder) (S fuel) ([buf1; buf2] : Loopback) top
       = Returns (dispatch_message top ([buf2] : Loopback) id1 args1)
    /\ Receive (D := Decoder) (S fuel) ([buf2] : Loopback) top
       = Returns (dispatch_message top ([] : Loopback) id2 args2).
Proof.
  intros Hid1 Hid2 Hlen1 Hlen2 Hr1 Hr2. unfold kMaxNumArgs in *.
  exists (message_bytes id1 (flat_map element_call args1)).
  exists (message_bytes id2 (flat_map element_call args2)).
  pose proof (Send_reference [] id1 args1) as HS1. cbv zeta in HS1.
  pose proof (Send_reference
                [message_bytes id1 (flat_map element_call args1)] id2 args2)
    as HS2.
  cbv zeta in HS2. rewrite HS1, HS2.
  split; [reflexivity|]. split; [reflexivity|].
  assert (Hcap : forall (args : list WireType) (id : Z),
            Z.of_nat (length args) <= 8 ->
            (kMaxNumArgs
             <? Z.of_nat (RxHandler.GetArgCount (RxHandler.mk args id)))
            = false).
  { intros args id Hlen. apply Z.ltb_ge.
    unfold kMaxNumArgs, RxHandler.GetArgCount. cbn. lia. }
  split.
  - pose proof (Receive_loop_reference 0 id1 args1
                  [message_bytes id2 (flat_map element_call args2)]
                  Hid1 ltac:(lia) Hr1) as HL.
    cbv zeta in HL.
    rewrite (Receive_after_loop 1 (S fuel) _ top _ _ _ _ HL) by lia.
    cbn [Success Decoder_DecoderT d_ok negb].
    now rewrite (Hcap args1 id1 Hlen1).
  - pose proof (Receive_loop_reference 0 id2 args2 [] Hid2 ltac:(lia) Hr2)
      as HL.
    cbv zeta in HL.
    rewrite (Receive_after_loop 1 (S fuel) _ top _ _ _ _ HL) by lia.
    cbn [Success Decoder_DecoderT d_ok negb].
    now rewrite (Hcap args2 id2 Hlen2).
Qed.

End InOrder.

(** ** The further theorems at concrete inputs *)

Section MoreRuns.
#[local] Existing Instance size_t32.

Lemma string_callbacks_stop_at_terminator_witness :
  c_str [112; 105] = [112; 105].
Proof.
  apply (proj2 (proj2 (proj2 (proj2 (proj2
           (string_callbacks_stop_at_terminator RxHandler.init
              [112; 105])))))).
  simpl. intuition discriminate.
Defined.

Lemma callbacks_partition_the_tags_witness :
  snd (RxHandler.OnString8 RxHandler.init [1; 0; 2] TYPE_BARRAY) = true
  /\ snd (RxHandler.OnWord RxHandler.init 3 TYPE_UNIX_FD) = false.
Proof.
  split.
  - apply (proj2 (proj1 (proj2 (callbacks_partition_the_tags RxHandler.init
                                  0 [1; 0; 2] [] TYPE_BARRAY)))).
    now right.
  - apply (proj2 (proj2 (proj2 (proj2 (proj2 (proj2
             (callbacks_partition_the_tags RxHandler.init 3 [] []
                TYPE_UNIX_FD))))))).
    simpl. tauto.
Defined.

Lemma AddMsgElement_makes_the_call_of_the_tag_witness :
  exists c,
    snd (AddMsgElement (E := Encoder) Encoder_new (WInt32 42)) = [c]
    /\ call_tag c = Some TYPE_INT32.
Proof.
  apply (proj2 (proj2 (AddMsgElement_makes_the_call_of_the_tag
                         (E := Encoder) Encoder_new (WInt32 42)))).
  discriminate.
Defined.

Lemma Send_sends_only_a_closed_buffer_witness :
  fst (fst (Send (enc := FailingClose) ([[9]] : Loopback) 7 [WInt32 1]))
  = [[9]].
Proof.
  apply (proj1 (proj2 (Send_sends_only_a_closed_buffer
                         (enc := FailingClose) ([[9]] : Loopback) 7
                         [WInt32 1]))).
  reflexivity.
Defined.

Lemma element_call_replayed_rebuilds_the_value_witness :
  exists c hc,
    element_call (WByteArray [1; 0; 2]) = [c] /\ callback_of c = Some hc
    /\ apply_call RxHandler.init hc
       = (RxHandler.push_back RxHandler.init (WByteArray [1; 0; 2]), true).
Proof.
  apply (proj1 (element_call_replayed_rebuilds_the_value RxHandler.init
                  (WByteArray [1; 0; 2]))).
  reflexivity.
Defined.

Lemma Receive_dispatches_the_accepted_values_witness :
  Receive (D := Decoder) 1
    (fst (fst (Send (E := Encoder) ([] : Loopback) 7
                 [WInt32 42; WString8 [112; 105; 110; 103]])))
    (mkTable [7])
  = Returns ([], 2,
             [DMsgHandler 7;
              DOnMsgIn 7 [WInt32 42; WString8 [112; 105; 110; 103]] 2]).
Proof.
  exact (proj1 (Receive_dispatches_the_accepted_values (size_t := size_t32)
                  1 1
                  (fst (fst (Send (E := Encoder) ([] : Loopback) 7
                               [WInt32 42; WString8 [112; 105; 110; 103]])))
                  (mkTable [7]) [] (mkDecoder true)
                  (RxHandler.mk [WInt32 42; WString8 [112; 105; 110; 103]] 7)
                  [HOnMessageStart 7 2; HOnWord 42 TYPE_INT32;
                   HOnString8 [112; 105; 110; 103] TYPE_STRING8]
                  eq_refl (le_n 1) eq_refl)
           (Zle_bool_imp_le 2 8 eq_refl)).
Defined.

Lemma Receive_loops_while_the_decoder_wants_more_witness :
  Receive (dec := Greedy) 5 ([[1]; [2]] : Loopback) (mkTable [7])
  = OutOfFuel.
Proof.
  exact (Receive_loops_while_the_decoder_wants_more (dec := Greedy)
           ([[1]; [2]] : Loopback) (mkTable [7])
           (fun d buf h => eq_refl) 5%nat).
Defined.

Lemma two_messages_arrive_in_order_witness :
  exists buf1 buf2 : list Z,
    fst (fst (Send (E := Encoder) ([] : Loopback) 7 [WInt32 42])) = [buf1]
    /\ fst (fst (Send (E := Encoder) ([buf1] : Loopback) 8 [WNullString8]))
       = [buf1; buf2]
    /\ Receive (D := Decoder) 1 ([buf1; buf2] : Loopback) (mkTable [7; 8])
       = Returns ([buf2], 1, [DMsgHandler 7; DOnMsgIn 7 [WInt32 42] 1])
    /\ Receive (D := Decoder) 1 ([buf2] : Loopback) (mkTable [7; 8])
       = Returns ([], 1, [DMsgHandler 8; DOnMsgIn 8 [WNullString8] 1]).
Proof.
  exact (two_messages_arrive_in_order (size_t := size_t32) 7 8 [WInt32 42]
           [WNullString8] (mkTable [7; 8]) 0%nat eq_refl eq_refl
           (Zle_bool_imp_le 1 8 eq_refl) (Zle_bool_imp_le 1 8 eq_refl)
           eq_refl eq_refl).
Defined.

End MoreRuns.
